(** * dht11.c: a shallow embedding of the DHT11 driver and its properties

    The driver has three parts that matter here:
    - [doirq], the GPIO edge handler that rebuilds the 40-bit frame from
      pulse widths;
    - [dothread], the polling thread that triggers the sensor, arms and
      disarms the handler, checks the frame and updates the results;
    - [doread], the character-device read that formats the results.

    C integers are modelled as [Z] with the truncation of each type written
    out ([u8], [u32], [u64], [s64]); the [data] array is a [list Z] indexed
    and updated in place; the per-file string buffer is a [list ascii]. *)

From Stdlib Require Import ZArith Lia Bool Ascii String DecimalString.
From stdpp Require Import base list.

Local Open Scope Z_scope.

(** ** Machine integers *)

Definition u8 (x : Z) : Z := x mod 2 ^ 8.
Definition u32 (x : Z) : Z := x mod 2 ^ 32.
Definition u64 (x : Z) : Z := x mod 2 ^ 64.

(** Conversion of a 64-bit pattern to [ssize_t] (two's complement). *)
Definition s64 (x : Z) : Z :=
  let y := x mod 2 ^ 64 in if y <? 2 ^ 63 then y else y - 2 ^ 64.

(** ** The interrupt handler *)

Module Isr.

(** The globals [data] and [state] together with the statics of [doirq]. *)
Record isr : Type := mk {
  data : list Z;        (* volatile u8 data[5] *)
  state : Z;            (* volatile int state *)
  edge : Z;             (* static u64 edge *)
  bit : Z;              (* static u32 bit *)
  nominal : Z           (* static u64 nominal *)
}.

Definition set_state (v : Z) (s : isr) : isr :=
  mk (data s) v (edge s) (bit s) (nominal s).

(** [data[i]] and [data[i] = v], on the five-element array. The handler
    only indexes with [bit / 8] in state 3, where [bit] is below 40 (lemma
    [run_bit_bound]), so the index is always one of 0..4. *)
Definition rd (d : list Z) (i : Z) : Z := d !!! Z.to_nat i.
Definition wr (d : list Z) (i : Z) (v : Z) : list Z := <[Z.to_nat i := u8 v]> d.

(** One delivery of the interrupt: [gpio_value] is what [gpio_get_value]
    returns inside the handler and [now] what [ktime_get_ns] returns. *)
Definition event : Type := bool * Z.

Definition doirq (s : isr) (ev : event) : isr :=
  let '(gpio_value, now) := ev in
  if state s =? 0 then s
  else if state s =? 1 then
    (* wait for initial 80 uS high *)
    if gpio_value then set_state 2 s else s
  else if state s =? 2 then
    (* initial 50uS low, remember edge *)
    mk (data s) 3 now 0 (nominal s)
  else if state s =? 3 then
    if gpio_value then
      (* data bit rising edge *)
      let nominal' := if bit s =? 0 then u64 (now - edge s) else nominal s in
      mk (data s) (state s) now (bit s) nominal'
    else
      (* data bit falling edge *)
      let i := bit s / 8 in
      let b := Z.b2z (u64 (now - edge s) >? nominal s) in
      let data' := wr (data s) i (Z.lor (Z.shiftl (rd (data s) i) 1) b) in
      let bit' := u32 (bit s + 1) in
      mk data' (if bit' >=? 40 then 0 else state s) (edge s) bit' (nominal s)
  else s.

(** The handler run over the edges delivered in some interval. *)
Definition run (s : isr) (evs : list event) : isr := fold_left doirq evs s.

(** [data] is an array of five bytes. *)
Definition wf (s : isr) : Prop :=
  length (data s) = 5%nat /\ Forall (fun v => 0 <= v < 256) (data s).

End Isr.

(** ** The polling thread *)

Module Thread.

(** The result globals [valid], [temperature], [humidity] (default 0). *)
Record results : Type := mkres {
  valid : Z;
  temperature : Z;
  humidity : Z
}.

Definition init : results := mkres 0 0 0.

Record machine : Type := mkm {
  irq : Isr.isr;
  res : results
}.

(** The interrupts delivered during one poll, by where they fall in the
    thread's code: while the sensor is triggered (lines 93-99, [state] is 0),
    while the handler is armed (the [msleep(25)] of line 102), and between
    the read of [state] into [final] and the disarm (lines 103-104). *)
Record window : Type := mkw {
  pre : list Isr.event;
  armed : list Isr.event;
  late : list Isr.event
}.

(** The test of lines 106-109. The [u8] operands are promoted to [int], so
    the sum is exact before it is masked. *)
Definition frame_ok (final : Z) (d : list Z) : bool :=
  (final =? 0) &&
  (Isr.rd d 1 <=? 9) &&
  (Isr.rd d 3 <=? 9) &&
  (Z.land (Isr.rd d 0 + Isr.rd d 1 + Isr.rd d 2 + Isr.rd d 3) 255 =? Isr.rd d 4).

(** Lines 93-104: prime, trigger, arm, wait, remember the final state,
    disarm. Returns [final] and the handler's state after the disarm. *)
Definition acquire (w : window) (i : Isr.isr) : Z * Isr.isr :=
  let i := Isr.set_state 0 i in
  let i := Isr.run i (pre w) in
  let i := Isr.set_state 1 i in
  let i := Isr.run i (armed w) in
  let final := Isr.state i in
  let i := Isr.run i (late w) in
  (final, Isr.set_state 0 i).

(** What the thread sees after the disarm: the final state of the handler
    and the frame in [data]. *)
Definition final_state (w : window) (m : machine) : Z := fst (acquire w (irq m)).
Definition frame (w : window) (m : machine) : list Z :=
  Isr.data (snd (acquire w (irq m))).

Definition accepted (w : window) (m : machine) : bool :=
  let '(final, i) := acquire w (irq m) in frame_ok final (Isr.data i).

(** Lines 93-121: one poll of the sensor. *)
Definition poll (w : window) (m : machine) : machine :=
  let '(final, i) := acquire w (irq m) in
  let d := Isr.data i in
  if frame_ok final d then
    mkm i (mkres 5 (Isr.rd d 2 * 10 + Isr.rd d 3) (Isr.rd d 0 * 10 + Isr.rd d 1))
  else
    let r := res m in
    mkm i (mkres (if valid r =? 0 then valid r else valid r - 1)
                 (temperature r) (humidity r)).

(** One turn of the [while] loop: [await] counts the 100 mS sleeps left
    before the next poll. *)
Definition loop_body (w : window) (st : Z * machine) : Z * machine :=
  let '(await, m) := st in
  let await := await - 1 in
  if await >? 0 then (await, m) else (2000 / 100, poll w m).

(** Consecutive polls, one window each. *)
Definition polls (m : machine) (ws : list window) : machine :=
  fold_left (fun m w => poll w m) ws m.

(** Every poll of the sequence is rejected. *)
Fixpoint all_failed (m : machine) (ws : list window) : bool :=
  match ws with
  | [] => true
  | w :: ws' => negb (accepted w m) && all_failed (poll w m) ws'
  end.

(** A poll during which no edge arrives. *)
Definition silence : window := mkw [] [] [].

(** The values the results can take: the counter within 0..5, the readings
    within what two bytes with a decimal fraction give. *)
Definition sane (r : results) : Prop :=
  0 <= valid r <= 5 /\ 0 <= humidity r <= 2559 /\ 0 <= temperature r <= 2559.

End Thread.

(** ** The character device *)

Module Dev.

Definition MAXS : Z := 32.
Definition EINVAL : Z := 22.
Definition ENOMEM : Z := 12.

Definition NUL : ascii := Ascii.zero.

(** An open file: the [MAXS]-byte block behind [filp->private_data] and the
    file position [*ofs]. *)
Record file : Type := mkf {
  private_data : list ascii;
  ofs : Z
}.

(** [blk] is what [kmalloc] returned: nothing, or a block of arbitrary
    content. *)
Definition doopen (blk : option (list ascii)) : Z * option file :=
  match blk with
  | None => (- ENOMEM, None)
  | Some b => (0, Some (mkf (<[0%nat := NUL]> b) 0))
  end.

Fixpoint strlen (s : list ascii) : Z :=
  match s with
  | [] => 0
  | c :: s' => if Ascii.eqb c NUL then 0 else 1 + strlen s'
  end.

(** The string a buffer holds: its bytes before the first NUL. *)
Definition cstring (buf : list ascii) : list ascii :=
  take (Z.to_nat (strlen buf)) buf.

(** The conversion [%d]. *)
Definition fmt_d (z : Z) : list ascii :=
  list_ascii_of_string (NilZero.string_of_int (Z.to_int z)).

Definition SP : ascii := Ascii.ascii_of_nat 32.
Definition LF : ascii := Ascii.ascii_of_nat 10.

(** The characters produced by the format ["%d %d\n"]. *)
Definition fmt (h t : Z) : list ascii := fmt_d h ++ SP :: fmt_d t ++ [LF].

(** [sprintf(dst, "%d %d\n", h, t)]: the characters and the terminating NUL
    overwrite the start of [dst]; returns the number of characters written,
    the NUL not counted. *)
Definition sprintf (dst : list ascii) (h t : Z) : list ascii * Z :=
  let s := fmt h t ++ [NUL] in
  (s ++ drop (length s) dst, Z.of_nat (length (fmt h t))).

(** [copy_to_user(buf, src, n)] where the first [writable] bytes of [buf]
    can be written: the bytes that reach the user and the number of bytes
    that could not be copied. *)
Definition copy_to_user (writable : Z) (src : list ascii) (n : Z) : list ascii * Z :=
  let c := Z.max 0 (Z.min n writable) in
  (take (Z.to_nat c) src, n - c).

(** Lines 155-158, common to both branches of [doread]. *)
Definition deliver (f : file) (n len writable : Z) : Z * list ascii * file :=
  let n := if u64 n >? len then s64 len else n in
  let '(out, missed) :=
    copy_to_user writable (drop (Z.to_nat (ofs f)) (private_data f)) n in
  let n := n - missed in
  (n, out, mkf (private_data f) (ofs f + n)).

(** [doread]: the value returned, the bytes copied to the caller and the
    file afterwards. [len] is the [length] argument. *)
Definition doread (r : Thread.results) (f : file) (len writable : Z)
  : Z * list ascii * file :=
  if negb (ofs f =? 0) then
    (* remainder from last read *)
    let n := s64 (strlen (private_data f) - ofs f) in
    if n <=? 0 then (0, [], f) else deliver f n len writable
  else
    if Thread.valid r =? 0 then (- EINVAL, [], f)
    else
      let '(pd, k) := sprintf (private_data f) (Thread.humidity r) (Thread.temperature r) in
      deliver (mkf pd (ofs f)) (k + 1) len writable.

(** A read result that serves the reading [h], [t]: it is not an error, and
    the bytes handed out start with the formatted reading, as much of it as
    the caller asked for and could take. *)
Definition serves (h t len writable : Z) (res : Z * list ascii * file) : Prop :=
  0 <= fst (fst res) /\
  take (length (fmt h t)) (snd (fst res)) =
  take (Z.to_nat (Z.min len writable)) (fmt h t).

End Dev.

(** ** The sensor's side of the wire *)

Module Wire.

(** One data bit as the sensor sends it: the duration of the low period
    that precedes it and the duration of the high period that carries it. *)
Definition pulse : Type := Z * Z.

(** The interrupts of a train of pulses whose first low period starts at
    time [t]: a rising edge (pin read high) after the low period, a falling
    edge (pin read low) after the high period. *)
Fixpoint edges (t : Z) (ps : list pulse) : list Isr.event :=
  match ps with
  | [] => []
  | (lo, hi) :: ps' =>
      (true, t + lo) :: (false, t + lo + hi) :: edges (t + lo + hi) ps'
  end.

(** A whole response seen from the armed handler: the rising edge of the
    80 uS acknowledge at [t_ack], its falling edge at [t0], then the bits. *)
Definition response (t_ack t0 : Z) (ps : list pulse) : list Isr.event :=
  (true, t_ack) :: (false, t0) :: edges t0 ps.

Definition duration (ps : list pulse) : Z :=
  fold_right (fun p acc => fst p + snd p + acc) 0 ps.

(** Time stamps are increasing readings of a 64-bit clock. *)
Definition timed (t0 : Z) (ps : list pulse) : Prop :=
  0 <= t0 /\ Forall (fun p => 0 <= fst p /\ 0 <= snd p) ps /\
  t0 + duration ps < 2 ^ 64.

(** The bits a train of pulses carries: a bit is 1 when its high period is
    longer than the low period before the first bit. *)
Definition sent_bits (ps : list pulse) : list bool :=
  match ps with
  | [] => []
  | (lo0, _) :: _ => map (fun p => snd p >? lo0) ps
  end.

(** The documented timing, in nanoseconds: 50 uS low, then 28 uS high for a
    0 and 70 uS high for a 1. *)
Definition pulse_of_bit (b : bool) : pulse := (50000, if b then 70000 else 28000).

(** Eight bits as a byte, most significant bit first. *)
Definition byte_of_bits (bs : list bool) : Z :=
  fold_left (fun a b => 2 * a + Z.b2z b) bs 0.

(** Forty bits as five bytes, in the order they were sent. *)
Definition frame_of_bits (bs : list bool) : list Z :=
  map (fun k => byte_of_bits (take 8 (drop (8 * k) bs))) (seq 0 5).

(** The bits of a byte and of a frame, most significant bit first. *)
Definition bits_of_byte (v : Z) : list bool :=
  map (fun j => Z.testbit v (7 - Z.of_nat j)) (seq 0 8).

Definition bits_of_frame (d : list Z) : list bool :=
  flat_map bits_of_byte d.

(** What the falling edges do to [data], as a function of the bits alone:
    bit number [k] is shifted into byte [k / 8]. *)
Definition shift_in (d : list Z) (k : Z) (b : bool) : list Z :=
  Isr.wr d (k / 8) (Z.lor (Z.shiftl (Isr.rd d (k / 8)) 1) (Z.b2z b)).

Fixpoint shift_all (d : list Z) (k : Z) (bs : list bool) : list Z :=
  match bs with
  | [] => d
  | b :: bs' => shift_all (shift_in d k b) (k + 1) bs'
  end.

(** A byte as a shift register. *)
Definition shift_byte (x : Z) (bs : list bool) : Z :=
  fold_left (fun a b => u8 (Z.lor (Z.shiftl a 1) (Z.b2z b))) bs x.

End Wire.

(** ** Concrete inputs used by the examples *)

Module Sample.

(** The frame 41 02 17 03 5D (hexadecimal). *)
Definition frame : list Z := [65; 2; 23; 3; 93].

Definition bits : list bool := Wire.bits_of_frame frame.

(** The frame sent with the documented timing: the 80 uS low of the
    acknowledge starts at time 0. *)
Definition evs : list Isr.event :=
  Wire.response 80000 160000 (map Wire.pulse_of_bit bits).

Definition win : Thread.window := Thread.mkw [] evs [].

(** The handler and the results when the module is loaded. *)
Definition isr0 : Isr.isr := Isr.mk [0; 0; 0; 0; 0] 0 0 0 0.
Definition boot : Thread.machine := Thread.mkm isr0 Thread.init.

(** The results after the frame above was accepted, and once the counter
    has run down to 0 again. *)
Definition good : Thread.results := Thread.mkres 5 233 652.
Definition stale : Thread.results := Thread.mkres 0 233 652.

(** A file just opened, on a block that [kmalloc] returned full of "x". *)
Definition fresh : Dev.file :=
  Dev.mkf (<[0%nat := Dev.NUL]> (repeat "x"%char 32)) 0.

End Sample.

(** ** Module load and unload *)

Module Life.

(** What [doinit] acquires, in the order it acquires it. *)
Inductive resource : Type := RGpio | RMisc | RIrq | RThread.

Definition same (a b : resource) : bool :=
  match a, b with
  | RGpio, RGpio | RMisc, RMisc | RIrq, RIrq | RThread, RThread => true
  | _, _ => false
  end.

(** What the kernel answers to [doinit]: the values returned by
    [gpio_request], [misc_register], [gpio_to_irq] and [request_irq], and
    the pointer returned by [kthread_run]. *)
Record kernel : Type := mkk {
  gpio_request : Z;
  misc_register : Z;
  gpio_to_irq : Z;
  request_irq : Z;
  kthread_run : Z
}.

(** The calls that take or give back a resource, in program order; an
    acquisition is logged with its outcome. *)
Inductive call : Type :=
| Acquire (r : resource) (ok : bool)
| Release (r : resource).

(** The labels [rmgpio] and [rmmisc] of [doinit]. *)
Definition rmgpio (log : list call) : Z * list call :=
  (- Dev.EINVAL, log ++ [Release RGpio]).

Definition rmmisc (log : list call) : Z * list call :=
  rmgpio (log ++ [Release RMisc]).

(** [doinit]: the value returned and the calls made. [request_irq] is only
    called when [gpio_to_irq] gave a positive number. *)
Definition doinit (k : kernel) : Z * list call :=
  if gpio_request k <? 0 then (- Dev.EINVAL, [Acquire RGpio false])
  else
    let log := [Acquire RGpio true] in
    if negb (misc_register k =? 0) then rmgpio (log ++ [Acquire RMisc false])
    else
      let log := log ++ [Acquire RMisc true] in
      if gpio_to_irq k <=? 0 then rmmisc log
      else if request_irq k <? 0 then rmmisc (log ++ [Acquire RIrq false])
      else
        let log := log ++ [Acquire RIrq true] in
        if kthread_run k =? 0 then rmmisc (log ++ [Acquire RThread false])
        else (0, log ++ [Acquire RThread true]).


(** The resources still held after a sequence of calls, the most recently
    acquired first. *)
Definition step (h : list resource) (c : call) : list resource :=
  match c with
  | Acquire r true => r :: h
  | Acquire _ false => h
  | Release r => filter (fun x => negb (same x r)) h
  end.

Definition held (log : list call) : list resource := fold_left step log [].

(** The resources a log obtained, in the order it obtained them. *)
Definition acquired (log : list call) : list resource :=
  flat_map (fun c => match c with Acquire r true => [r] | _ => [] end) log.

(** [kthread_run] was reached and returned a null pointer. *)
Definition thread_failed (k : kernel) : bool :=
  (0 <=? gpio_request k) && (misc_register k =? 0) &&
  (0 <? gpio_to_irq k) && (0 <=? request_irq k) && (kthread_run k =? 0).

(** The resources a log gives back, in the order it gives them back. *)
Definition released (log : list call) : list resource :=
  flat_map (fun c => match c with Release r => [r] | Acquire _ _ => [] end) log.

End Life.

(** ** Time stamps of a clock that wraps *)

Module Clock.

(** The same edge seen [c] nanoseconds later on the 64-bit clock. *)
Definition shift (c : Z) (ev : Isr.event) : Isr.event :=
  (fst ev, u64 (snd ev + c)).

(** The handler with its remembered edge moved by [c] as well. *)
Definition shift_isr (c : Z) (s : Isr.isr) : Isr.isr :=
  Isr.mk (Isr.data s) (Isr.state s) (u64 (Isr.edge s + c)) (Isr.bit s) (Isr.nominal s).

End Clock.

(** ** The thread's loop, a bit flipped on the wire, a sequence of reads *)

Module Run.

(** Consecutive turns of the [while] loop of [dothread], one window each
    (the window of a turn that only sleeps is not looked at: the handler is
    disarmed then). *)
Definition turns (st : Z * Thread.machine) (ws : list Thread.window)
  : Z * Thread.machine :=
  fold_left (fun st w => Thread.loop_body w st) ws st.

(** Bit [j] of byte [i] of a frame inverted. *)
Definition flip (d : list Z) (i j : Z) : list Z :=
  Isr.wr d i (Z.lxor (Isr.rd d i) (2 ^ j)).

(** Consecutive calls of [doread] on one open file, each with the results
    as they are at that moment and its own [length]: the bytes handed out,
    in order, and the file afterwards. *)
Fixpoint reads (f : Dev.file) (writable : Z) (calls : list (Thread.results * Z))
  : list ascii * Dev.file :=
  match calls with
  | [] => ([], f)
  | (r, len) :: calls' =>
      let '(_, out, f') := Dev.doread r f len writable in
      let '(outs, f'') := reads f' writable calls' in
      (out ++ outs, f'')
  end.

Definition total (calls : list (Thread.results * Z)) : Z :=
  fold_right (fun c acc => snd c + acc) 0 calls.

End Run.

(** * Properties *)

(** ** The handler when idle *)

Lemma doirq_idle (s : Isr.isr) (ev : Isr.event) :
  Isr.state s = 0 -> Isr.doirq s ev = s.
Proof.
  intros H. destruct ev as [lvl now]. unfold Isr.doirq. now rewrite H.
Qed.

Lemma run_idle (s : Isr.isr) (evs : list Isr.event) :
  Isr.state s = 0 -> Isr.run s evs = s.
Proof.
  intros H. induction evs as [|ev evs IH]; [reflexivity|].
  unfold Isr.run in *. simpl. rewrite doirq_idle by assumption. exact IH.
Qed.

Lemma run_app (s : Isr.isr) (e1 e2 : list Isr.event) :
  Isr.run s (e1 ++ e2) = Isr.run (Isr.run s e1) e2.
Proof. unfold Isr.run. apply fold_left_app. Qed.

(** C8. Disarming twice is disarming once, and a disarmed handler ignores
    every edge: whatever interrupts arrive, [data], [state] and the statics
    stay as the disarm left them. *)
Theorem disarm_idempotent_inert (s : Isr.isr) (ev : Isr.event) (evs : list Isr.event) :
  let i := Isr.set_state 0 s in
  Isr.set_state 0 i = i /\
  Isr.doirq i ev = i /\
  Isr.run i evs = i /\
  Isr.data (Isr.run i evs) = Isr.data s.
Proof.
  cbn zeta. repeat split.
  - now apply doirq_idle.
  - now apply run_idle.
  - now rewrite run_idle.
Qed.

(** The edges that arrive before the handler is armed, or after a frame is
    complete, change nothing of what the thread sees. *)
Lemma acquire_pre (w : Thread.window) (i : Isr.isr) :
  Thread.acquire w i =
  Thread.acquire (Thread.mkw [] (Thread.armed w) (Thread.late w)) i.
Proof.
  unfold Thread.acquire.
  rewrite (run_idle (Isr.set_state 0 i) (Thread.pre w)) by reflexivity.
  reflexivity.
Qed.

Lemma acquire_complete (w : Thread.window) (i : Isr.isr) :
  fst (Thread.acquire w i) = 0 ->
  Thread.acquire w i = Thread.acquire (Thread.mkw (Thread.pre w) (Thread.armed w) []) i.
Proof.
  unfold Thread.acquire. cbn [fst Thread.pre Thread.armed Thread.late]. intros H.
  rewrite (run_idle _ (Thread.late w)) by exact H.
  reflexivity.
Qed.

(** ** The handler keeps [data] an array of five bytes *)

Lemma u8_range (x : Z) : 0 <= u8 x < 256.
Proof. unfold u8. apply Z.mod_pos_bound. lia. Qed.

Lemma wr_wf (d : list Z) (i v : Z) :
  length d = 5%nat /\ Forall (fun v => 0 <= v < 256) d ->
  length (Isr.wr d i v) = 5%nat /\ Forall (fun v => 0 <= v < 256) (Isr.wr d i v).
Proof.
  intros [Hl Hf]. unfold Isr.wr. split.
  - now rewrite length_insert.
  - apply Forall_insert; [assumption | apply u8_range].
Qed.

Lemma doirq_wf (s : Isr.isr) (ev : Isr.event) : Isr.wf s -> Isr.wf (Isr.doirq s ev).
Proof.
  intros H. destruct ev as [lvl now]. unfold Isr.doirq.
  repeat (case_match; try assumption); unfold Isr.wf; cbn; try apply H.
  all: now apply wr_wf.
Qed.

Lemma run_wf (s : Isr.isr) (evs : list Isr.event) : Isr.wf s -> Isr.wf (Isr.run s evs).
Proof.
  revert s. induction evs as [|ev evs IH]; intros s H; [assumption|].
  apply IH. now apply doirq_wf.
Qed.

(** In state 3 the bit counter is below 40, so [bit / 8] is a valid index
    of [data]: the counter is reset on entering state 3 and the handler
    leaves that state when the counter reaches 40. *)
Lemma doirq_bit_bound (s : Isr.isr) (ev : Isr.event) :
  (Isr.state s = 3 -> 0 <= Isr.bit s < 40) ->
  Isr.state (Isr.doirq s ev) = 3 -> 0 <= Isr.bit (Isr.doirq s ev) < 40.
Proof.
  intros H. destruct ev as [lvl now]. unfold Isr.doirq.
  destruct (Z.eqb_spec (Isr.state s) 0); [assumption|].
  destruct (Z.eqb_spec (Isr.state s) 1);
    [destruct lvl; [discriminate | assumption]|].
  destruct (Z.eqb_spec (Isr.state s) 2); [cbn; lia|].
  destruct (Z.eqb_spec (Isr.state s) 3) as [E|]; [|assumption].
  destruct lvl; cbn [Isr.state Isr.bit]; [intros _; now apply H|].
  specialize (H E). unfold u32. rewrite (Z.mod_small (Isr.bit s + 1)) by lia.
  destruct (Z.geb_spec (Isr.bit s + 1) 40); [discriminate | lia].
Qed.

Lemma run_bit_bound (evs : list Isr.event) (s : Isr.isr) :
  (Isr.state s = 3 -> 0 <= Isr.bit s < 40) ->
  Isr.state (Isr.run s evs) = 3 -> 0 <= Isr.bit (Isr.run s evs) < 40.
Proof.
  revert s. induction evs as [|ev evs IH]; intros s H; [exact H|].
  apply IH. now apply doirq_bit_bound.
Qed.

Lemma acquire_wf (w : Thread.window) (i : Isr.isr) :
  Isr.wf i -> Isr.wf (snd (Thread.acquire w i)).
Proof.
  intros H. unfold Thread.acquire. cbn.
  repeat (first [apply run_wf | change (Isr.wf (Isr.set_state ?v ?x)) with (Isr.wf x)]).
  exact H.
Qed.

Lemma rd_range (d : list Z) (i : Z) :
  Forall (fun v => 0 <= v < 256) d -> 0 <= Isr.rd d i < 256.
Proof.
  intros H. unfold Isr.rd.
  destruct (decide (Z.to_nat i < length d)%nat) as [Hi|Hi].
  - destruct (lookup_lt_is_Some_2 d _ Hi) as [v Hv].
    rewrite (list_lookup_total_correct _ _ _ Hv).
    exact (proj1 (Forall_lookup _ _) H _ _ Hv).
  - rewrite list_lookup_total_alt, lookup_ge_None_2 by lia. cbn. lia.
Qed.

(** ** One poll *)

Lemma accepted_eq (w : Thread.window) (m : Thread.machine) :
  Thread.accepted w m = Thread.frame_ok (Thread.final_state w m) (Thread.frame w m).
Proof.
  unfold Thread.accepted, Thread.final_state, Thread.frame.
  now destruct (Thread.acquire w (Thread.irq m)).
Qed.

Lemma poll_accepted (w : Thread.window) (m : Thread.machine) :
  Thread.accepted w m = true ->
  Thread.res (Thread.poll w m) =
  let d := Thread.frame w m in
  Thread.mkres 5 (Isr.rd d 2 * 10 + Isr.rd d 3) (Isr.rd d 0 * 10 + Isr.rd d 1).
Proof.
  unfold Thread.accepted, Thread.poll, Thread.frame.
  destruct (Thread.acquire w (Thread.irq m)) as [final i]. cbn.
  now intros ->.
Qed.

Lemma poll_rejected (w : Thread.window) (m : Thread.machine) :
  Thread.accepted w m = false ->
  Thread.res (Thread.poll w m) =
  let r := Thread.res m in
  Thread.mkres (if Thread.valid r =? 0 then 0 else Thread.valid r - 1)
               (Thread.temperature r) (Thread.humidity r).
Proof.
  unfold Thread.accepted, Thread.poll.
  destruct (Thread.acquire w (Thread.irq m)) as [final i]. cbn.
  intros ->. cbn. destruct (Z.eqb_spec (Thread.valid (Thread.res m)) 0) as [->|]; reflexivity.
Qed.

Lemma frame_ok_iff (final : Z) (d : list Z) :
  Thread.frame_ok final d = true <->
  final = 0 /\ Isr.rd d 1 <= 9 /\ Isr.rd d 3 <= 9 /\
  Z.land (Isr.rd d 0 + Isr.rd d 1 + Isr.rd d 2 + Isr.rd d 3) 255 = Isr.rd d 4.
Proof.
  unfold Thread.frame_ok.
  rewrite !andb_true_iff, !Z.eqb_eq, !Z.leb_le. tauto.
Qed.

(** The mask of line 109 keeps the sum modulo 256. *)
Lemma mask_255 (x : Z) : Z.land x 255 = x mod 256.
Proof. change 255 with (Z.ones 8). now rewrite Z.land_ones by lia. Qed.

(** A poll is rejected for one of four reasons: the frame is incomplete,
    a fraction is out of range, or the checksum does not match. *)
Lemma rejected_iff (w : Thread.window) (m : Thread.machine) :
  Thread.accepted w m = false <->
  let d := Thread.frame w m in
  Thread.final_state w m <> 0 \/ 9 < Isr.rd d 1 \/ 9 < Isr.rd d 3 \/
  (Isr.rd d 0 + Isr.rd d 1 + Isr.rd d 2 + Isr.rd d 3) mod 256 <> Isr.rd d 4.
Proof.
  cbn zeta. rewrite <- not_true_iff_false, accepted_eq, frame_ok_iff, mask_255.
  split; [|lia].
  intros H.
  destruct (Z.eq_dec (Thread.final_state w m) 0); [|now left].
  destruct (Z_lt_le_dec 9 (Isr.rd (Thread.frame w m) 1)); [now right; left|].
  destruct (Z_lt_le_dec 9 (Isr.rd (Thread.frame w m) 3)); [now right; right; left|].
  right; right; right. intros E. apply H. auto.
Qed.

(** C1. When a poll ends with a complete frame (the handler went back to
    state 0 by itself), the frame is accepted exactly when the masked sum of
    its first four bytes is the fifth byte and both fraction bytes are at
    most 9; a frame that misses one of the three is rejected. *)
Theorem frame_accepted_iff (w : Thread.window) (m : Thread.machine) :
  Thread.final_state w m = 0 ->
  let d := Thread.frame w m in
  (Thread.accepted w m = true <->
   Z.land (Isr.rd d 0 + Isr.rd d 1 + Isr.rd d 2 + Isr.rd d 3) 255 = Isr.rd d 4 /\
   Isr.rd d 1 <= 9 /\ Isr.rd d 3 <= 9) /\
  (Thread.accepted w m = false <->
   ~ (Z.land (Isr.rd d 0 + Isr.rd d 1 + Isr.rd d 2 + Isr.rd d 3) 255 = Isr.rd d 4 /\
      Isr.rd d 1 <= 9 /\ Isr.rd d 3 <= 9)).
Proof.
  intros Hf d.
  assert (A : Thread.accepted w m = true <->
   Z.land (Isr.rd d 0 + Isr.rd d 1 + Isr.rd d 2 + Isr.rd d 3) 255 = Isr.rd d 4 /\
   Isr.rd d 1 <= 9 /\ Isr.rd d 3 <= 9).
  { rewrite accepted_eq, frame_ok_iff. fold d. tauto. }
  split; [exact A|].
  rewrite <- A. symmetry. apply not_true_iff_false.
Qed.

Lemma frame_accepted_iff_witness :
  Thread.final_state Sample.win Sample.boot = 0 /\
  (Thread.accepted Sample.win Sample.boot = true <->
   Z.land (65 + 2 + 23 + 3) 255 = 93 /\ 2 <= 9 /\ 3 <= 9).
Proof.
  split; [reflexivity|].
  exact (proj1 (frame_accepted_iff Sample.win Sample.boot eq_refl)).
Defined.

(** C3, as the code has it. A poll that ends with the complete frame
    41 02 17 03 5D (hexadecimal) is accepted; it sets the counter to 5 and
    publishes humidity 65 * 10 + 2 = 652 and temperature 23 * 10 + 3 = 233. *)
Theorem scenario_frame_published (w : Thread.window) (m : Thread.machine) :
  Thread.final_state w m = 0 ->
  Thread.frame w m = Sample.frame ->
  Thread.accepted w m = true /\
  Thread.res (Thread.poll w m) = Thread.mkres 5 233 652.
Proof.
  intros Hf Hd.
  assert (A : Thread.accepted w m = true).
  { rewrite accepted_eq, Hf, Hd. reflexivity. }
  split; [exact A|].
  rewrite (poll_accepted _ _ A), Hd. reflexivity.
Qed.

Lemma scenario_frame_published_witness :
  Thread.final_state Sample.win Sample.boot = 0 /\
  Thread.frame Sample.win Sample.boot = Sample.frame /\
  Thread.accepted Sample.win Sample.boot = true /\
  Thread.res (Thread.poll Sample.win Sample.boot) = Thread.mkres 5 233 652.
Proof.
  split; [reflexivity|]. split; [reflexivity|].
  apply (scenario_frame_published Sample.win Sample.boot); reflexivity.
Defined.

(** C3, as the claim has it, fails: the reading published for that frame is
    not humidity 412 and temperature 173. *)
Lemma scenario_frame_not_412_173 :
  ~ (forall w m,
       Thread.final_state w m = 0 ->
       Thread.frame w m = Sample.frame ->
       Thread.humidity (Thread.res (Thread.poll w m)) = 412 /\
       Thread.temperature (Thread.res (Thread.poll w m)) = 173 /\
       Thread.valid (Thread.res (Thread.poll w m)) = 5).
Proof.
  intros H.
  destruct (H Sample.win Sample.boot eq_refl eq_refl) as [Hh _].
  vm_compute in Hh. discriminate Hh.
Qed.

(** The bytes of an accepted frame: all within 0..255, the two fractions
    at most 9. *)
Lemma accepted_frame_bytes (w : Thread.window) (m : Thread.machine) :
  Isr.wf (Thread.irq m) ->
  Thread.accepted w m = true ->
  let d := Thread.frame w m in
  (forall i, 0 <= Isr.rd d i < 256) /\ Isr.rd d 1 <= 9 /\ Isr.rd d 3 <= 9.
Proof.
  intros Hwf Hacc d.
  rewrite accepted_eq in Hacc. apply frame_ok_iff in Hacc.
  fold d in Hacc. destruct Hacc as (_ & H1 & H3 & _).
  split; [|split; assumption].
  intros i. apply rd_range. exact (proj2 (acquire_wf w (Thread.irq m) Hwf)).
Qed.

(** C4. For every accepted frame the published values are the exact
    integers [data[0] * 10 + data[1]] and [data[2] * 10 + data[3]]: tenths,
    with the integer byte as the quotient by 10 and the fraction byte as the
    remainder. Both stay within 0..2559, so the [int] arithmetic of the
    thread never wraps. *)
Theorem published_tenths (w : Thread.window) (m : Thread.machine) :
  Isr.wf (Thread.irq m) ->
  Thread.accepted w m = true ->
  let d := Thread.frame w m in
  let r := Thread.res (Thread.poll w m) in
  Thread.humidity r = Isr.rd d 0 * 10 + Isr.rd d 1 /\
  Thread.temperature r = Isr.rd d 2 * 10 + Isr.rd d 3 /\
  Thread.humidity r / 10 = Isr.rd d 0 /\ Thread.humidity r mod 10 = Isr.rd d 1 /\
  Thread.temperature r / 10 = Isr.rd d 2 /\ Thread.temperature r mod 10 = Isr.rd d 3 /\
  0 <= Thread.humidity r <= 2559 /\ 0 <= Thread.temperature r <= 2559.
Proof.
  intros Hwf Hacc d r.
  assert (Hr : r = Thread.mkres 5 (Isr.rd d 2 * 10 + Isr.rd d 3) (Isr.rd d 0 * 10 + Isr.rd d 1))
    by exact (poll_accepted w m Hacc).
  destruct (accepted_frame_bytes w m Hwf Hacc) as (Hb & H1 & H3). fold d in Hb, H1, H3.
  pose proof (Hb 0). pose proof (Hb 1). pose proof (Hb 2). pose proof (Hb 3).
  rewrite Hr. cbn [Thread.humidity Thread.temperature].
  repeat split; try lia.
  - symmetry. apply (Z.div_unique _ 10 _ (Isr.rd d 1)); lia.
  - symmetry. apply (Z.mod_unique _ 10 (Isr.rd d 0)); lia.
  - symmetry. apply (Z.div_unique _ 10 _ (Isr.rd d 3)); lia.
  - symmetry. apply (Z.mod_unique _ 10 (Isr.rd d 2)); lia.
Qed.

Lemma sample_boot_wf : Isr.wf (Thread.irq Sample.boot).
Proof. split; [reflexivity|]. repeat constructor; lia. Defined.

Lemma published_tenths_witness :
  let r := Thread.res (Thread.poll Sample.win Sample.boot) in
  Thread.accepted Sample.win Sample.boot = true /\
  Thread.humidity r = 65 * 10 + 2 /\ Thread.temperature r = 23 * 10 + 3.
Proof.
  split; [reflexivity|].
  pose proof (published_tenths Sample.win Sample.boot sample_boot_wf eq_refl) as H.
  cbn zeta in H. destruct H as (Hh & Ht & _). split; [exact Hh | exact Ht].
Defined.

(** ** The validity counter *)

(** The invariants of the globals are kept by every poll. *)
Lemma poll_wf (w : Thread.window) (m : Thread.machine) :
  Isr.wf (Thread.irq m) -> Isr.wf (Thread.irq (Thread.poll w m)).
Proof.
  intros H. pose proof (acquire_wf w _ H) as A. unfold Thread.poll.
  destruct (Thread.acquire w (Thread.irq m)) as [final i].
  now destruct (Thread.frame_ok final (Isr.data i)).
Qed.

Lemma poll_sane (w : Thread.window) (m : Thread.machine) :
  Isr.wf (Thread.irq m) -> Thread.sane (Thread.res m) ->
  Thread.sane (Thread.res (Thread.poll w m)).
Proof.
  intros Hwf (Hv & Hh & Ht).
  destruct (Thread.accepted w m) eqn:Hacc.
  - destruct (accepted_frame_bytes w m Hwf Hacc) as (B & H1 & H3). cbn zeta in *.
    pose proof (B 0). pose proof (B 1). pose proof (B 2). pose proof (B 3).
    rewrite (poll_accepted w m Hacc). unfold Thread.sane.
    cbn zeta. cbn [Thread.valid Thread.humidity Thread.temperature]. lia.
  - rewrite (poll_rejected w m Hacc). unfold Thread.sane. cbn.
    destruct (Z.eqb_spec (Thread.valid (Thread.res m)) 0); lia.
Qed.

(** The loop polls once every twenty turns and only sleeps in between. *)
Lemma loop_body_spin (w : Thread.window) (await : Z) (m : Thread.machine) :
  1 < await -> Thread.loop_body w (await, m) = (await - 1, m).
Proof.
  intros H. unfold Thread.loop_body.
  destruct (Z.gtb_spec (await - 1) 0); [reflexivity | lia].
Qed.

Lemma loop_body_poll (w : Thread.window) (await : Z) (m : Thread.machine) :
  await <= 1 -> Thread.loop_body w (await, m) = (20, Thread.poll w m).
Proof.
  intros H. unfold Thread.loop_body.
  destruct (Z.gtb_spec (await - 1) 0); [lia | reflexivity].
Qed.

Lemma polls_cons (m : Thread.machine) (w : Thread.window) (ws : list Thread.window) :
  Thread.polls m (w :: ws) = Thread.polls (Thread.poll w m) ws.
Proof. reflexivity. Qed.

(** Failed polls only count down, and stop at 0. *)
Lemma polls_failed (ws : list Thread.window) (m : Thread.machine) :
  0 <= Thread.valid (Thread.res m) ->
  Thread.all_failed m ws = true ->
  let r := Thread.res (Thread.polls m ws) in
  Thread.valid r = Z.max 0 (Thread.valid (Thread.res m) - Z.of_nat (length ws)) /\
  Thread.humidity r = Thread.humidity (Thread.res m) /\
  Thread.temperature r = Thread.temperature (Thread.res m).
Proof.
  revert m. induction ws as [|w ws IH]; intros m Hv Hall.
  - cbn. repeat split. lia.
  - cbn [Thread.all_failed] in Hall. apply andb_true_iff in Hall as [Hw Hall].
    apply negb_true_iff in Hw. pose proof (poll_rejected w m Hw) as Hr. cbn zeta in Hr.
    assert (Hv' : 0 <= Thread.valid (Thread.res (Thread.poll w m))).
    { rewrite Hr. cbn. destruct (Z.eqb_spec (Thread.valid (Thread.res m)) 0); lia. }
    specialize (IH _ Hv' Hall). cbn zeta in IH |- *. rewrite polls_cons.
    destruct IH as (IHv & IHh & IHt). rewrite IHv, IHh, IHt, Hr. cbn.
    repeat split.
    destruct (Z.eqb_spec (Thread.valid (Thread.res m)) 0); lia.
Qed.

Lemma silence_rejected (m : Thread.machine) : Thread.accepted Thread.silence m = false.
Proof. reflexivity. Qed.

Lemma silence_all_failed (n : nat) (m : Thread.machine) :
  Thread.all_failed m (repeat Thread.silence n) = true.
Proof. revert m. induction n as [|n IH]; intros m; [reflexivity|]. cbn. apply IH. Qed.

(** C5. An accepted poll sets the counter to 5, its maximum; from 5, after
    N polls that all fail the counter is max(0, 5 - N): one less per
    failure until it is 0, where it stays; it is never negative. *)
Theorem validity_decay (w : Thread.window) (m0 m : Thread.machine) (ws : list Thread.window) :
  Thread.accepted w m0 = true ->
  Thread.valid (Thread.res m) = 5 ->
  Thread.all_failed m ws = true ->
  Thread.valid (Thread.res (Thread.poll w m0)) = 5 /\
  Thread.valid (Thread.res (Thread.polls m ws)) = Z.max 0 (5 - Z.of_nat (length ws)) /\
  0 <= Thread.valid (Thread.res (Thread.polls m ws)).
Proof.
  intros Hacc Hv Hall. split.
  - now rewrite (poll_accepted w m0 Hacc).
  - destruct (polls_failed ws m ltac:(lia) Hall) as (E & _). rewrite E, Hv. lia.
Qed.

Lemma validity_decay_witness :
  let m := Thread.poll Sample.win Sample.boot in
  Thread.valid (Thread.res m) = 5 /\
  Thread.valid (Thread.res (Thread.polls m (repeat Thread.silence 3))) = 2 /\
  Thread.valid (Thread.res (Thread.polls m (repeat Thread.silence 7))) = 0.
Proof.
  cbn zeta. split; [reflexivity|]. split.
  - exact (proj1 (proj2 (validity_decay Sample.win Sample.boot
             (Thread.poll Sample.win Sample.boot) (repeat Thread.silence 3)
             eq_refl eq_refl eq_refl))).
  - exact (proj1 (proj2 (validity_decay Sample.win Sample.boot
             (Thread.poll Sample.win Sample.boot) (repeat Thread.silence 7)
             eq_refl eq_refl eq_refl))).
Defined.

(** C9, as the code has it. A failed poll, whatever made it fail, leaves
    the stored humidity and temperature as they were; the counter goes down
    by 1 when it is not 0 and stays 0 when it is. *)
Theorem failed_poll_keeps_reading (w : Thread.window) (m : Thread.machine) :
  Thread.accepted w m = false ->
  let r := Thread.res m in
  let r' := Thread.res (Thread.poll w m) in
  Thread.humidity r' = Thread.humidity r /\
  Thread.temperature r' = Thread.temperature r /\
  (Thread.valid r <> 0 -> Thread.valid r' = Thread.valid r - 1) /\
  (Thread.valid r = 0 -> Thread.valid r' = 0).
Proof.
  intros Hrej. cbn zeta. rewrite (poll_rejected w m Hrej). cbn.
  repeat split.
  - intros Hv. now destruct (Z.eqb_spec (Thread.valid (Thread.res m)) 0).
  - now intros ->.
Qed.

Lemma failed_poll_keeps_reading_witness :
  let m := Thread.poll Sample.win Sample.boot in
  let r' := Thread.res (Thread.poll Thread.silence m) in
  Thread.accepted Thread.silence m = false /\
  Thread.humidity r' = 652 /\ Thread.temperature r' = 233 /\ Thread.valid r' = 4.
Proof.
  cbn zeta. split; [reflexivity|].
  destruct (failed_poll_keeps_reading Thread.silence
              (Thread.poll Sample.win Sample.boot) eq_refl) as (Hh & Ht & Hv & _).
  split; [exact Hh|]. split; [exact Ht|]. apply Hv. vm_compute. discriminate.
Defined.

(** C9, as the claim has it, fails: a poll that fails when the counter is
    already 0 does not decrement it. *)
Lemma failed_poll_at_zero_not_decremented :
  ~ (forall w m,
       Thread.accepted w m = false ->
       Thread.humidity (Thread.res (Thread.poll w m)) = Thread.humidity (Thread.res m) /\
       Thread.temperature (Thread.res (Thread.poll w m)) = Thread.temperature (Thread.res m) /\
       Thread.valid (Thread.res (Thread.poll w m)) = Thread.valid (Thread.res m) - 1).
Proof.
  intros H.
  destruct (H Thread.silence Sample.boot eq_refl) as (_ & _ & Hv).
  vm_compute in Hv. discriminate Hv.
Qed.

(** ** The shift register *)

Lemma lor_shift_bit (a : Z) (b : bool) :
  Z.lor (Z.shiftl a 1) (Z.b2z b) = 2 * a + Z.b2z b.
Proof.
  apply Z.bits_inj'. intros n Hn. rewrite Z.lor_spec.
  destruct (Z.eq_dec n 0) as [->|Hne].
  - rewrite Z.shiftl_spec by lia. rewrite Z.testbit_neg_r by lia.
    rewrite Z.b2z_bit0. rewrite (Z.add_comm (2 * a)), Z.add_b2z_double_bit0.
    reflexivity.
  - replace n with (Z.succ (n - 1)) by lia.
    rewrite Z.shiftl_spec by lia.
    change (Z.b2z b) with (2 * 0 + Z.b2z b) at 1.
    rewrite !Z.testbit_succ_r by lia.
    replace (Z.succ (n - 1) - 1) with (n - 1) by lia.
    rewrite Z.bits_0. apply orb_false_r.
Qed.

Lemma shift_step_mod (s a : Z) (b : bool) :
  s mod 256 = a mod 256 ->
  u8 (Z.lor (Z.shiftl s 1) (Z.b2z b)) mod 256 = (2 * a + Z.b2z b) mod 256.
Proof.
  intros H. unfold u8. change (2 ^ 8) with 256. rewrite Z.mod_mod by lia.
  rewrite lor_shift_bit.
  rewrite <- (Zplus_mod_idemp_l (2 * s)), <- (Zmult_mod_idemp_r s), H.
  now rewrite Zmult_mod_idemp_r, Zplus_mod_idemp_l.
Qed.

Lemma shift_byte_mod (bs : list bool) (x y : Z) :
  x mod 256 = y mod 256 ->
  Wire.shift_byte x bs mod 256 =
  fold_left (fun a b => 2 * a + Z.b2z b) bs y mod 256.
Proof.
  revert x y. induction bs as [|b bs IH]; intros x y H; [exact H|].
  cbn [Wire.shift_byte fold_left]. apply IH.
  now apply shift_step_mod.
Qed.

Lemma shift_byte_reduced (bs : list bool) (x : Z) :
  0 <= x < 256 -> 0 <= Wire.shift_byte x bs < 256.
Proof.
  revert x. induction bs as [|b bs IH]; intros x H; [exact H|].
  cbn [Wire.shift_byte fold_left]. apply IH, u8_range.
Qed.

Lemma acc_split (bs : list bool) (y : Z) :
  fold_left (fun a b => 2 * a + Z.b2z b) bs y =
  y * 2 ^ Z.of_nat (length bs) + Wire.byte_of_bits bs.
Proof.
  unfold Wire.byte_of_bits. revert y.
  induction bs as [|b bs IH]; intros y.
  - cbn. lia.
  - cbn [fold_left length]. rewrite IH, (IH (2 * 0 + Z.b2z b)).
    rewrite Nat2Z.inj_succ, Z.pow_succ_r by lia. lia.
Qed.

Lemma byte_of_bits_range (bs : list bool) :
  0 <= Wire.byte_of_bits bs < 2 ^ Z.of_nat (length bs).
Proof.
  induction bs as [|b bs IH] using rev_ind.
  - cbn. lia.
  - unfold Wire.byte_of_bits in *. rewrite fold_left_app, length_app. cbn [fold_left length].
    rewrite Nat2Z.inj_add, Z.pow_add_r by lia. change (2 ^ Z.of_nat 1) with 2.
    destruct b; cbn [Z.b2z]; lia.
Qed.

(** Eight shifts replace the byte, whatever it held. *)
Lemma shift_byte_8 (x : Z) (c : list bool) :
  length c = 8%nat -> Wire.shift_byte x c = Wire.byte_of_bits c.
Proof.
  intros Hl.
  destruct c as [|b c]; [discriminate|].
  assert (R : 0 <= Wire.shift_byte x (b :: c) < 256).
  { cbn [Wire.shift_byte fold_left]. apply shift_byte_reduced, u8_range. }
  pose proof (shift_byte_mod (b :: c) x x eq_refl) as M.
  rewrite acc_split, Hl in M. change (2 ^ Z.of_nat 8) with 256 in M.
  rewrite (Z.add_comm (x * 256)), Z_mod_plus_full in M.
  pose proof (byte_of_bits_range (b :: c)) as B. rewrite Hl in B.
  change (2 ^ Z.of_nat 8) with 256 in B.
  rewrite !Z.mod_small in M by lia. exact M.
Qed.

(** Within one byte of [data], the bits go through the shift register of
    that byte and leave the other bytes alone. *)
Lemma shift_all_byte (c : list bool) :
  forall (d : list Z) (k : Z) (j : nat) (rest : list bool),
  (j < length d)%nat ->
  8 * Z.of_nat j <= k -> k + Z.of_nat (length c) <= 8 * Z.of_nat j + 8 ->
  Wire.shift_all d k (c ++ rest) =
  Wire.shift_all (<[j := Wire.shift_byte (d !!! j) c]> d) (k + Z.of_nat (length c)) rest.
Proof.
  induction c as [|b c IH]; intros d k j rest Hj Hlo Hhi.
  - cbn [app length Wire.shift_byte fold_left]. rewrite Z.add_0_r.
    rewrite list_insert_id; [reflexivity|].
    apply list_lookup_lookup_total_lt. exact Hj.
  - cbn [app length Wire.shift_all] in *.
    assert (Hk : Z.to_nat (k / 8) = j).
    { assert (k / 8 = Z.of_nat j) as ->; [|lia].
      symmetry. apply (Z.div_unique k 8 _ (k - 8 * Z.of_nat j)); lia. }
    unfold Wire.shift_in, Isr.wr, Isr.rd. rewrite Hk.
    rewrite (IH _ (k + 1) j rest); [| now rewrite length_insert | lia | lia].
    rewrite list_lookup_total_insert_eq by exact Hj.
    rewrite list_insert_insert_eq.
    f_equal. lia.
Qed.

Lemma shift_all_chunk (j : nat) (d : list Z) (bs : list bool) :
  (j < length d)%nat -> (8 <= length bs)%nat ->
  Wire.shift_all d (8 * Z.of_nat j) bs =
  Wire.shift_all (<[j := Wire.byte_of_bits (take 8 bs)]> d)
                 (8 * Z.of_nat (S j)) (drop 8 bs).
Proof.
  intros Hj Hl.
  rewrite <- (take_drop 8 bs) at 1.
  assert (L : length (take 8 bs) = 8%nat) by (rewrite length_take; lia).
  rewrite (shift_all_byte (take 8 bs) d _ j); [| exact Hj | lia | lia].
  rewrite shift_byte_8 by exact L. rewrite L. f_equal. lia.
Qed.

(** Forty bits shifted in from bit 0 give the frame, whatever [data] held
    before. *)
Lemma shift_all_frame (d : list Z) (bs : list bool) :
  length d = 5%nat -> length bs = 40%nat ->
  Wire.shift_all d 0 bs = Wire.frame_of_bits bs.
Proof.
  intros Hd Hb.
  change 0 with (8 * Z.of_nat 0).
  rewrite (shift_all_chunk 0) by lia.
  rewrite (shift_all_chunk 1) by (rewrite ?length_insert, ?length_drop; lia).
  rewrite (shift_all_chunk 2) by (rewrite ?length_insert, ?length_drop; lia).
  rewrite (shift_all_chunk 3) by (rewrite ?length_insert, ?length_drop; lia).
  rewrite (shift_all_chunk 4) by (rewrite ?length_insert, ?length_drop; lia).
  rewrite !drop_drop. cbn [Nat.add].
  rewrite (drop_ge bs 40) by lia. cbn [Wire.shift_all].
  destruct d as [|d0 [|d1 [|d2 [|d3 [|d4 [|]]]]]]; try discriminate Hd.
  reflexivity.
Qed.

(** The bits read back from a byte built from eight bits are those bits. *)
Lemma bits_of_byte_of_bits (c : list bool) :
  length c = 8%nat -> Wire.bits_of_byte (Wire.byte_of_bits c) = c.
Proof.
  intros Hl.
  destruct c as [|b0 [|b1 [|b2 [|b3 [|b4 [|b5 [|b6 [|b7 [|]]]]]]]]]; try discriminate Hl.
  destruct b0, b1, b2, b3, b4, b5, b6, b7; reflexivity.
Qed.

Lemma bits_of_frame_of_bits (bs : list bool) :
  length bs = 40%nat -> Wire.bits_of_frame (Wire.frame_of_bits bs) = bs.
Proof.
  intros Hl.
  do 40 (destruct bs as [|? bs]; [discriminate Hl|]).
  destruct bs; [|discriminate Hl].
  unfold Wire.bits_of_frame, Wire.frame_of_bits.
  cbn [seq map flat_map firstn skipn Nat.mul Nat.add].
  rewrite !bits_of_byte_of_bits by reflexivity.
  reflexivity.
Qed.

(** ** The handler while it receives bits *)

Lemma doirq_armed (s : Isr.isr) (now : Z) :
  Isr.state s = 1 -> Isr.doirq s (true, now) = Isr.set_state 2 s.
Proof. intros H. unfold Isr.doirq. now rewrite H. Qed.

Lemma doirq_reference (s : Isr.isr) (lvl : bool) (now : Z) :
  Isr.state s = 2 ->
  Isr.doirq s (lvl, now) = Isr.mk (Isr.data s) 3 now 0 (Isr.nominal s).
Proof. intros H. unfold Isr.doirq. now rewrite H. Qed.

(** A rising edge in state 3 restarts the measure; on bit 0 it also
    captures the width of the low period as the nominal width. *)
Lemma doirq_rising (s : Isr.isr) (now : Z) :
  Isr.state s = 3 ->
  Isr.doirq s (true, now) =
  Isr.mk (Isr.data s) 3 now (Isr.bit s)
         (if Isr.bit s =? 0 then u64 (now - Isr.edge s) else Isr.nominal s).
Proof. intros H. unfold Isr.doirq. now rewrite H. Qed.

(** A falling edge in state 3 shifts one bit into byte [bit / 8]: 1 when
    the time since the rising edge exceeds the nominal width, else 0; the
    fortieth bit sends the handler back to state 0. *)
Lemma doirq_falling (s : Isr.isr) (now : Z) :
  Isr.state s = 3 -> 0 <= Isr.bit s < 40 ->
  Isr.doirq s (false, now) =
  Isr.mk (Wire.shift_in (Isr.data s) (Isr.bit s)
            (u64 (now - Isr.edge s) >? Isr.nominal s))
         (if Isr.bit s + 1 =? 40 then 0 else 3)
         (Isr.edge s) (Isr.bit s + 1) (Isr.nominal s).
Proof.
  intros H Hb. unfold Isr.doirq. rewrite H. cbn [Z.eqb Pos.eqb].
  unfold u32. rewrite (Z.mod_small (Isr.bit s + 1)) by lia.
  unfold Wire.shift_in. f_equal.
  destruct (Z.eqb_spec (Isr.bit s + 1) 40) as [E|E].
  - rewrite E. reflexivity.
  - destruct (Z.geb_spec (Isr.bit s + 1) 40); [lia | reflexivity].
Qed.

Lemma duration_nonneg (ps : list Wire.pulse) :
  Forall (fun p => 0 <= fst p /\ 0 <= snd p) ps -> 0 <= Wire.duration ps.
Proof.
  unfold Wire.duration. induction 1 as [|p ps [? ?] _ IH]; cbn [fold_right]; lia.
Qed.

(** The pulses of a train, one after the other: each adds the bit that its
    high period carries. [t] is the start of the next low period. *)
Lemma run_edges (ps : list Wire.pulse) :
  forall (s : Isr.isr) (t nom : Z),
  Isr.state s = 3 ->
  0 <= Isr.bit s < 40 -> Isr.bit s + Z.of_nat (length ps) <= 40 ->
  0 <= t -> t + Wire.duration ps < 2 ^ 64 ->
  Forall (fun p => 0 <= fst p /\ 0 <= snd p) ps ->
  (Isr.bit s = 0 -> Isr.edge s = t /\ forall p, head ps = Some p -> fst p = nom) ->
  (Isr.bit s <> 0 -> Isr.nominal s = nom) ->
  let s' := Isr.run s (Wire.edges t ps) in
  Isr.data s' = Wire.shift_all (Isr.data s) (Isr.bit s) (map (fun p => snd p >? nom) ps) /\
  Isr.bit s' = Isr.bit s + Z.of_nat (length ps) /\
  Isr.state s' = if Isr.bit s' =? 40 then 0 else 3.
Proof.
  induction ps as [|[lo hi] ps IH]; intros s t nom Hst Hb Hb40 Ht0 Htd Hps H0 Hn.
  - cbn. rewrite Z.add_0_r. repeat split. rewrite Hst.
    destruct (Z.eqb_spec (Isr.bit s) 40); [lia | reflexivity].
  - apply Forall_cons in Hps as [[Hlo Hhi] Hps].
    pose proof (duration_nonneg ps Hps) as Hd.
    cbn [Wire.duration fold_right fst snd] in Htd. fold (Wire.duration ps) in Htd.
    cbn [Wire.edges Isr.run fold_left length map fst snd Wire.shift_all] in *.
    rewrite doirq_rising by exact Hst.
    set (s1 := Isr.mk _ _ _ _ _).
    assert (Hnom : Isr.nominal s1 = nom).
    { subst s1. cbn. destruct (Z.eqb_spec (Isr.bit s) 0) as [E|E].
      - destruct (H0 E) as [-> Hp]. rewrite <- (Hp (lo, hi) eq_refl). cbn [fst].
        unfold u64. replace (t + lo - t) with lo by lia. apply Z.mod_small. lia.
      - now apply Hn. }
    rewrite (doirq_falling s1) by (subst s1; cbn; first [reflexivity | lia]).
    rewrite Hnom.
    replace (Isr.edge s1) with (t + lo) by reflexivity.
    replace (Isr.bit s1) with (Isr.bit s) by reflexivity.
    replace (Isr.data s1) with (Isr.data s) by reflexivity.
    replace (u64 (t + lo + hi - (t + lo))) with hi
      by (unfold u64; replace (t + lo + hi - (t + lo)) with hi by lia;
          symmetry; apply Z.mod_small; lia).
    set (s2 := Isr.mk _ _ _ _ _).
    destruct (Z.eqb_spec (Isr.bit s + 1) 40) as [E|E].
    + (* the fortieth bit *)
      assert (ps = []) as -> by (destruct ps; [reflexivity | cbn in Hb40; lia]).
      cbn. split; [reflexivity|]. split; [lia|].
      rewrite E. reflexivity.
    + assert (S2 : Isr.state s2 = 3) by reflexivity.
      assert (B2 : Isr.bit s2 = Isr.bit s + 1) by reflexivity.
      assert (D2 : Isr.data s2 = Wire.shift_in (Isr.data s) (Isr.bit s) (hi >? nom))
        by reflexivity.
      assert (N2 : Isr.nominal s2 = nom) by reflexivity.
      clearbody s2.
      destruct (IH s2 (t + lo + hi) nom) as (Id & Ib & Is);
        try assumption; try lia.
      fold (Isr.run s2 (Wire.edges (t + lo + hi) ps)).
      rewrite Id, Is, Ib, D2, B2. repeat split. lia.
Qed.

(** The whole response, from the armed handler to the fortieth bit. *)
Lemma run_response (s : Isr.isr) (t_ack t0 : Z) (ps : list Wire.pulse) :
  Isr.wf s ->
  Isr.state s = 1 ->
  length ps = 40%nat ->
  Wire.timed t0 ps ->
  let s' := Isr.run s (Wire.response t_ack t0 ps) in
  Isr.state s' = 0 /\
  Isr.bit s' = 40 /\
  Isr.data s' = Wire.frame_of_bits (Wire.sent_bits ps) /\
  Wire.bits_of_frame (Isr.data s') = Wire.sent_bits ps.
Proof.
  unfold Wire.pulse in *. intros [Hlen _] Hst Hl (Ht0 & Hps & Hend).
  destruct ps as [|[lo0 hi0] ps']; [discriminate Hl|].
  set (ps := (lo0, hi0) :: ps') in *.
  unfold Wire.response. cbn [Isr.run fold_left].
  rewrite doirq_armed by exact Hst.
  rewrite doirq_reference by reflexivity.
  set (s2 := Isr.mk _ _ _ _ _).
  destruct (run_edges ps s2 t0 lo0) as (Hd & Hb & Hs);
    try assumption; try reflexivity; try (subst s2; cbn; lia).
  - subst s2. cbn [Isr.bit]. unfold Wire.pulse. rewrite Hl. lia.
  - intros _. split; [reflexivity|]. intros p [= <-]. reflexivity.
  - fold (Isr.run s2 (Wire.edges t0 ps)). cbn zeta.
    assert (Hb' : Isr.bit (Isr.run s2 (Wire.edges t0 ps)) = 40).
    { rewrite Hb. unfold Wire.pulse. rewrite Hl. reflexivity. }
    assert (Hbits : length (Wire.sent_bits ps) = 40%nat).
    { subst ps. cbn [Wire.sent_bits]. now rewrite length_map. }
    assert (Hd' : Isr.data (Isr.run s2 (Wire.edges t0 ps)) =
                  Wire.frame_of_bits (Wire.sent_bits ps)).
    { rewrite Hd. subst s2. cbn [Isr.data Isr.bit].
      now apply shift_all_frame. }
    rewrite Hs, Hb', Hd'. repeat split.
    now apply bits_of_frame_of_bits.
Qed.

(** With the documented timing the bits received are the bits sent. *)
Lemma sent_bits_documented (bs : list bool) :
  Wire.sent_bits (map Wire.pulse_of_bit bs) = bs.
Proof.
  assert (A : forall l, map (fun p : Wire.pulse => snd p >? 50000) (map Wire.pulse_of_bit l) = l).
  { induction l as [|[] l IH]; cbn [map]; [reflexivity | |]; now rewrite IH. }
  destruct bs as [|b0 bs]; [reflexivity|].
  exact (A (b0 :: bs)).
Qed.

Lemma timed_documented (t0 : Z) (bs : list bool) :
  0 <= t0 -> t0 + 120000 * Z.of_nat (length bs) < 2 ^ 64 ->
  Wire.timed t0 (map Wire.pulse_of_bit bs).
Proof.
  intros H0 H1. split; [exact H0|]. split.
  - apply Forall_map, Forall_forall. intros [] _; cbn; lia.
  - assert (Wire.duration (map Wire.pulse_of_bit bs) <= 120000 * Z.of_nat (length bs)); [|lia].
    clear. unfold Wire.duration.
    induction bs as [|[] bs IH]; cbn [map fold_right length Wire.pulse_of_bit fst snd]; lia.
Qed.

(** The property as a test would state it: any forty bits sent with the
    documented timing are what the handler leaves in [data]. *)
Corollary decode_documented (s : Isr.isr) (t_ack t0 : Z) (bs : list bool) :
  Isr.wf s -> Isr.state s = 1 -> length bs = 40%nat -> 0 <= t0 < 2 ^ 63 ->
  let s' := Isr.run s (Wire.response t_ack t0 (map Wire.pulse_of_bit bs)) in
  Isr.state s' = 0 /\ Isr.data s' = Wire.frame_of_bits bs /\
  Wire.bits_of_frame (Isr.data s') = bs.
Proof.
  intros Hwf Hst Hl Ht.
  destruct (run_response s t_ack t0 (map Wire.pulse_of_bit bs)) as (A & _ & B & C);
    try assumption.
  - now rewrite length_map.
  - apply timed_documented; [lia|]. rewrite Hl. lia.
  - rewrite sent_bits_documented in B, C. auto.
Qed.

(** C2. An armed handler that receives a whole response (the rising and
    the falling edge of the acknowledge, then forty pulses) ends in state 0
    with the forty bits in [data], byte [i / 8] holding bit [i], most
    significant bit first. The bit of each pulse is 1 exactly when its high
    period, measured at the falling edge from the rising edge before it, is
    longer than the nominal width, the low period measured on bit 0. *)
Theorem decode_response (s : Isr.isr) (t_ack t0 : Z) (ps : list Wire.pulse) :
  Isr.wf s ->
  Isr.state s = 1 ->
  length ps = 40%nat ->
  Wire.timed t0 ps ->
  let s' := Isr.run s (Wire.response t_ack t0 ps) in
  Isr.state s' = 0 /\
  Isr.bit s' = 40 /\
  Isr.data s' = Wire.frame_of_bits (Wire.sent_bits ps) /\
  Wire.bits_of_frame (Isr.data s') = Wire.sent_bits ps.
Proof. exact (run_response s t_ack t0 ps). Qed.

Lemma decode_response_witness :
  let s' := Isr.run (Isr.set_state 1 Sample.isr0) Sample.evs in
  Isr.state s' = 0 /\ Isr.data s' = Sample.frame /\
  Wire.bits_of_frame (Isr.data s') = Sample.bits.
Proof.
  assert (T : Wire.timed 160000 (map Wire.pulse_of_bit Sample.bits)).
  { unfold Wire.timed. split; [lia|]. split; [|vm_compute; reflexivity].
    vm_compute. repeat constructor; discriminate. }
  destruct (decode_response (Isr.set_state 1 Sample.isr0) 80000 160000
              (map Wire.pulse_of_bit Sample.bits) sample_boot_wf eq_refl eq_refl T)
    as (A & _ & B & C).
  cbn zeta. split; [exact A|]. split; [exact B | exact C].
Defined.

(** ** The formatted string *)

Lemma uint_no_nul (d : Decimal.uint) :
  Forall (fun c => c <> Dev.NUL) (list_ascii_of_string (NilEmpty.string_of_uint d)).
Proof.
  induction d; cbn [NilEmpty.string_of_uint list_ascii_of_string];
    constructor; try assumption; discriminate.
Qed.

Lemma fmt_d_no_nul (z : Z) : Forall (fun c => c <> Dev.NUL) (Dev.fmt_d z).
Proof.
  unfold Dev.fmt_d, NilZero.string_of_int, NilZero.string_of_uint.
  destruct (Z.to_int z) as [d|d]; destruct d eqn:E; rewrite <- ?E;
    cbn [list_ascii_of_string];
    repeat (constructor; [discriminate|]); try apply uint_no_nul; constructor.
Qed.

Lemma fmt_no_nul (h t : Z) : Forall (fun c => c <> Dev.NUL) (Dev.fmt h t).
Proof.
  unfold Dev.fmt. apply Forall_app. split; [apply fmt_d_no_nul|].
  constructor; [discriminate|]. apply Forall_app. split; [apply fmt_d_no_nul|].
  constructor; [discriminate | constructor].
Qed.

(** A reading of at most 2559 tenths prints in at most four characters. *)
Lemma fmt_d_length (z : Z) : 0 <= z <= 2559 -> (length (Dev.fmt_d z) <= 4)%nat.
Proof.
  intros Hz.
  assert (A : forallb (fun n => length (Dev.fmt_d (Z.of_nat n)) <=? 4)%nat (seq 0 2560) = true)
    by (vm_compute; reflexivity).
  rewrite forallb_forall in A. specialize (A (Z.to_nat z)).
  rewrite Z2Nat.id in A by lia. apply Nat.leb_le, A, in_seq. lia.
Qed.

Lemma fmt_length (r : Thread.results) :
  Thread.sane r ->
  (length (Dev.fmt (Thread.humidity r) (Thread.temperature r)) <= 10)%nat.
Proof.
  intros (_ & Hh & Ht). unfold Dev.fmt.
  rewrite length_app. cbn [length]. rewrite length_app. cbn [length].
  pose proof (fmt_d_length _ Hh). pose proof (fmt_d_length _ Ht). lia.
Qed.

Lemma strlen_string (s rest : list ascii) :
  Forall (fun c => c <> Dev.NUL) s ->
  Dev.strlen (s ++ Dev.NUL :: rest) = Z.of_nat (length s).
Proof.
  induction 1 as [|c s Hc _ IH]; [reflexivity|].
  cbn [app Dev.strlen length]. rewrite IH.
  destruct (Ascii.eqb_spec c Dev.NUL); [contradiction | lia].
Qed.

Lemma cstring_string (s rest : list ascii) :
  Forall (fun c => c <> Dev.NUL) s -> Dev.cstring (s ++ Dev.NUL :: rest) = s.
Proof.
  intros H. unfold Dev.cstring. rewrite strlen_string by exact H.
  rewrite Nat2Z.id. apply take_app_length.
Qed.

Lemma strlen_bounds (buf : list ascii) : 0 <= Dev.strlen buf <= Z.of_nat (length buf).
Proof.
  induction buf as [|c buf IH]; cbn [Dev.strlen length]; [lia|].
  destruct (Ascii.eqb c Dev.NUL); lia.
Qed.

(** ** [doread] *)

(** The tail of [doread]: of the [n] bytes available it copies as many as
    the caller asked for and can take. *)
Lemma deliver_eq (f : Dev.file) (n len writable : Z) :
  0 <= n < 2 ^ 63 -> 0 <= len < 2 ^ 64 -> 0 <= writable ->
  Dev.deliver f n len writable =
  let c := Z.min (Z.min n len) writable in
  (c, take (Z.to_nat c) (drop (Z.to_nat (Dev.ofs f)) (Dev.private_data f)),
   Dev.mkf (Dev.private_data f) (Dev.ofs f + c)).
Proof.
  intros Hn Hl Hw. unfold Dev.deliver, Dev.copy_to_user, u64.
  rewrite (Z.mod_small n) by lia.
  destruct (Z.gtb_spec n len) as [G|G].
  - assert (S : s64 len = len).
    { unfold s64. rewrite Z.mod_small by lia.
      destruct (Z.ltb_spec len (2 ^ 63)); lia. }
    rewrite S. cbn zeta.
    replace (Z.max 0 (Z.min len writable)) with (Z.min (Z.min n len) writable) by lia.
    replace (len - (len - Z.min (Z.min n len) writable))
      with (Z.min (Z.min n len) writable) by lia.
    reflexivity.
  - cbn zeta.
    replace (Z.max 0 (Z.min n writable)) with (Z.min (Z.min n len) writable) by lia.
    replace (n - (n - Z.min (Z.min n len) writable))
      with (Z.min (Z.min n len) writable) by lia.
    reflexivity.
Qed.

(** A read at offset 0 while the counter is not 0: the buffer is
    formatted and delivered from its start. *)
Lemma doread_start (r : Thread.results) (f : Dev.file) (len writable : Z) :
  Dev.ofs f = 0 -> Thread.valid r <> 0 -> Thread.sane r ->
  0 <= len < 2 ^ 64 -> 0 <= writable ->
  let s := Dev.fmt (Thread.humidity r) (Thread.temperature r) in
  let pd := (s ++ [Dev.NUL]) ++ drop (length (s ++ [Dev.NUL])) (Dev.private_data f) in
  let c := Z.min (Z.min (Z.of_nat (length s) + 1) len) writable in
  Dev.doread r f len writable = (c, take (Z.to_nat c) pd, Dev.mkf pd c).
Proof.
  intros Ho Hv Hs Hl Hw. cbn zeta. unfold Dev.doread.
  rewrite Ho. cbn [Z.eqb negb].
  destruct (Z.eqb_spec (Thread.valid r) 0) as [E|_]; [contradiction|].
  unfold Dev.sprintf. pose proof (fmt_length r Hs) as L.
  rewrite deliver_eq by lia. cbn [Dev.ofs Dev.private_data Z.to_nat skipn Z.add].
  reflexivity.
Qed.

(** A read at a nonzero offset: the bytes of the buffered string that
    remain, whatever the results are. *)
Lemma doread_remainder (r : Thread.results) (f : Dev.file) (len writable : Z) :
  0 < Dev.ofs f < 2 ^ 63 -> Z.of_nat (length (Dev.private_data f)) = Dev.MAXS ->
  0 <= len < 2 ^ 64 -> 0 <= writable ->
  Dev.doread r f len writable =
  let rem := Dev.strlen (Dev.private_data f) - Dev.ofs f in
  if rem <=? 0 then (0, [], f)
  else
    let n := Z.min (Z.min rem len) writable in
    (n, take (Z.to_nat n) (drop (Z.to_nat (Dev.ofs f)) (Dev.cstring (Dev.private_data f))),
     Dev.mkf (Dev.private_data f) (Dev.ofs f + n)).
Proof.
  intros Ho Hm Hl Hw. cbn zeta. unfold Dev.doread.
  destruct (Z.eqb_spec (Dev.ofs f) 0) as [E|_]; [lia|]. cbn [negb].
  pose proof (strlen_bounds (Dev.private_data f)) as B. unfold Dev.MAXS in Hm.
  set (rem := Dev.strlen (Dev.private_data f) - Dev.ofs f) in *.
  assert (S : s64 rem = rem).
  { unfold s64.
    destruct (Z_lt_le_dec rem 0) as [N|N].
    - replace (rem mod 2 ^ 64) with (rem + 2 ^ 64)
        by (apply (Z.mod_unique rem (2 ^ 64) (-1)); lia).
      destruct (Z.ltb_spec (rem + 2 ^ 64) (2 ^ 63)); lia.
    - rewrite Z.mod_small by lia. destruct (Z.ltb_spec rem (2 ^ 63)); lia. }
  rewrite S. destruct (Z.leb_spec rem 0) as [N|N]; [reflexivity|].
  rewrite deliver_eq by lia. cbn zeta. f_equal. f_equal.
  unfold Dev.cstring.
  rewrite !take_drop_commute, take_take. f_equal. f_equal. lia.
Qed.

Lemma doread_start_serves (r : Thread.results) (f : Dev.file) (len writable : Z) :
  Dev.ofs f = 0 -> Thread.valid r <> 0 -> Thread.sane r ->
  0 <= len < 2 ^ 64 -> 0 <= writable ->
  Dev.serves (Thread.humidity r) (Thread.temperature r) len writable
             (Dev.doread r f len writable).
Proof.
  intros Ho Hv Hs Hl Hw.
  rewrite (doread_start r f len writable Ho Hv Hs Hl Hw). cbn zeta.
  set (s := Dev.fmt (Thread.humidity r) (Thread.temperature r)).
  unfold Dev.serves. cbn [fst snd]. fold s. split; [lia|].
  rewrite take_take, <- app_assoc.
  rewrite take_app_le by lia.
  destruct (Z_le_gt_dec (Z.min len writable) (Z.of_nat (length s))) as [C|C].
  - f_equal. lia.
  - rewrite (take_ge s (Z.to_nat _)) by lia. rewrite take_ge by lia. reflexivity.
Qed.

Lemma doread_invalid (r : Thread.results) (f : Dev.file) (len writable : Z) :
  Dev.ofs f = 0 -> Thread.valid r = 0 ->
  Dev.doread r f len writable = (- Dev.EINVAL, [], f).
Proof. intros Ho Hv. unfold Dev.doread. now rewrite Ho, Hv. Qed.

(** After an accepted poll, fewer than five failed polls leave a counter
    that is not 0 and the reading of the accepted poll. *)
Lemma reading_survives (w : Thread.window) (m : Thread.machine) (ws : list Thread.window) :
  Thread.accepted w m = true ->
  Thread.all_failed (Thread.poll w m) ws = true ->
  let good := Thread.res (Thread.poll w m) in
  let r := Thread.res (Thread.polls (Thread.poll w m) ws) in
  Thread.valid r = Z.max 0 (5 - Z.of_nat (length ws)) /\
  Thread.humidity r = Thread.humidity good /\
  Thread.temperature r = Thread.temperature good.
Proof.
  intros Hacc Hall. cbn zeta.
  assert (V : Thread.valid (Thread.res (Thread.poll w m)) = 5)
    by now rewrite (poll_accepted w m Hacc).
  destruct (polls_failed ws (Thread.poll w m) ltac:(lia) Hall) as (A & B & C).
  rewrite A, B, C, V. auto.
Qed.

Lemma polls_wf_sane (ws : list Thread.window) (m : Thread.machine) :
  Isr.wf (Thread.irq m) -> Thread.sane (Thread.res m) ->
  Isr.wf (Thread.irq (Thread.polls m ws)) /\ Thread.sane (Thread.res (Thread.polls m ws)).
Proof.
  revert m. induction ws as [|w ws IH]; intros m Hw Hs; [now split|].
  rewrite polls_cons. apply IH; [now apply poll_wf | now apply poll_sane].
Qed.

(** Every state the driver reaches from start-up keeps the invariants: the
    counter within 0..5 and the readings within 0..2559. *)
Lemma reachable_sane (ws : list Thread.window) :
  Thread.sane (Thread.res (Thread.polls Sample.boot ws)).
Proof.
  apply polls_wf_sane.
  - split; [reflexivity|]. repeat constructor; lia.
  - unfold Thread.sane. cbn. lia.
Qed.

(** A file just opened holds the empty string at offset 0. *)
Lemma doopen_fresh (blk : list ascii) :
  blk <> [] ->
  exists f, Dev.doopen (Some blk) = (0, Some f) /\
            Dev.cstring (Dev.private_data f) = [] /\ Dev.ofs f = 0 /\
            length (Dev.private_data f) = length blk.
Proof.
  intros H. destruct blk as [|c blk]; [contradiction|].
  eexists. split; [reflexivity|]. repeat split.
Qed.

(** C6, as the code has it. A read at file offset 0 fails, with [-EINVAL],
    exactly when the counter is 0; when the counter is not 0 it is served
    the stored reading. After an accepted poll and any number of failed
    polls, a read at offset 0 fails exactly when five or more polls have
    failed, and until then it is served the reading of the accepted poll. *)
Theorem read_at_start (r : Thread.results) (f : Dev.file) (len writable : Z)
    (w : Thread.window) (m : Thread.machine) (ws : list Thread.window) :
  Dev.ofs f = 0 -> 0 <= len < 2 ^ 64 -> 0 <= writable ->
  Thread.sane r ->
  Isr.wf (Thread.irq m) ->
  Thread.accepted w m = true ->
  Thread.all_failed (Thread.poll w m) ws = true ->
  ((fst (fst (Dev.doread r f len writable)) = - Dev.EINVAL <-> Thread.valid r = 0) /\
   (Thread.valid r <> 0 ->
    Dev.serves (Thread.humidity r) (Thread.temperature r) len writable
               (Dev.doread r f len writable))) /\
  (let good := Thread.res (Thread.poll w m) in
   let r' := Thread.res (Thread.polls (Thread.poll w m) ws) in
   (fst (fst (Dev.doread r' f len writable)) = - Dev.EINVAL <-> (5 <= length ws)%nat) /\
   ((length ws < 5)%nat ->
    Dev.serves (Thread.humidity good) (Thread.temperature good) len writable
               (Dev.doread r' f len writable))).
Proof.
  intros Ho Hl Hw Hs Hwf Hacc Hall.
  assert (G : forall r0, Thread.sane r0 ->
    (fst (fst (Dev.doread r0 f len writable)) = - Dev.EINVAL <-> Thread.valid r0 = 0) /\
    (Thread.valid r0 <> 0 ->
     Dev.serves (Thread.humidity r0) (Thread.temperature r0) len writable
                (Dev.doread r0 f len writable))).
  { intros r0 Hs0. split; [split|].
    - intros E. destruct (Z.eq_dec (Thread.valid r0) 0) as [|Hv]; [assumption|].
      destruct (doread_start_serves r0 f len writable Ho Hv Hs0 Hl Hw) as [P _].
      rewrite E in P. unfold Dev.EINVAL in P. lia.
    - intros Hv. now rewrite doread_invalid.
    - intros Hv. now apply doread_start_serves. }
  split; [now apply G|]. cbn zeta.
  destruct (reading_survives w m ws Hacc Hall) as (V & H & T).
  assert (Hs' : Thread.sane (Thread.res (Thread.polls (Thread.poll w m) ws))).
  { apply polls_wf_sane; [now apply poll_wf|].
    destruct (accepted_frame_bytes w m Hwf Hacc) as (B & H1 & H3). cbn zeta in *.
    pose proof (B 0). pose proof (B 1). pose proof (B 2). pose proof (B 3).
    unfold Thread.sane. rewrite (poll_accepted w m Hacc).
    cbn zeta. cbn [Thread.valid Thread.humidity Thread.temperature]. lia. }
  destruct (G _ Hs') as [G1 G2]. rewrite H, T in G2. split.
  - rewrite G1, V. lia.
  - intros Hn. apply G2. rewrite V. lia.
Qed.

Lemma read_at_start_witness :
  Dev.serves 652 233 32 32
    (Dev.doread (Thread.res (Thread.polls (Thread.poll Sample.win Sample.boot)
                               (repeat Thread.silence 4)))
                Sample.fresh 32 32) /\
  fst (fst (Dev.doread (Thread.res (Thread.polls (Thread.poll Sample.win Sample.boot)
                                      (repeat Thread.silence 5)))
                       Sample.fresh 32 32)) = - Dev.EINVAL.
Proof.
  assert (S : Thread.sane Sample.good) by (unfold Thread.sane; cbn; lia).
  split.
  - refine (proj2 (proj2 (read_at_start Sample.good Sample.fresh 32 32 Sample.win Sample.boot
             (repeat Thread.silence 4) eq_refl _ _ S sample_boot_wf eq_refl eq_refl)) _);
      cbn; lia.
  - refine (proj2 (proj1 (proj2 (read_at_start Sample.good Sample.fresh 32 32 Sample.win
             Sample.boot (repeat Thread.silence 5) eq_refl _ _ S sample_boot_wf
             eq_refl eq_refl))) _); cbn; lia.
Defined.

(** C6, as the claim has it, fails: with the counter at 0, a read that
    continues at a nonzero offset is not an error. Here a first read of four
    bytes is followed, once the counter is 0, by a read of the rest. *)
Lemma read_at_offset_not_rejected :
  let f1 := snd (Dev.doread Sample.good Sample.fresh 4 4) in
  Thread.valid Sample.stale = 0 /\
  Dev.ofs f1 = 4 /\
  fst (Dev.doread Sample.stale f1 32 32) = (4, list_ascii_of_string "233" ++ [Dev.LF]) /\
  ~ (forall r f len writable,
       Thread.valid r = 0 -> fst (fst (Dev.doread r f len writable)) = - Dev.EINVAL).
Proof.
  cbn zeta. split; [reflexivity|]. split; [reflexivity|]. split; [reflexivity|].
  intros H.
  specialize (H Sample.stale (snd (Dev.doread Sample.good Sample.fresh 4 4)) 32 32 eq_refl).
  vm_compute in H. discriminate H.
Qed.

(** C7. At the input below the code does not do what the claim says: a
    read of the whole string at offset 0 hands out nine bytes: the seven of
    "652 233", the newline, and then the NUL that ends the string in the
    buffer. Read in two parts, the same string comes without the NUL: the
    second read counts the bytes with [strlen]. *)
Theorem read_whole_appends_nul :
  fst (Dev.doread Sample.good Sample.fresh 32 32) =
    (9, list_ascii_of_string "652 233" ++ [Dev.LF; Dev.NUL]) /\
  (let f1 := snd (Dev.doread Sample.good Sample.fresh 4 32) in
   fst (Dev.doread Sample.good Sample.fresh 4 32) = (4, list_ascii_of_string "652 ") /\
   fst (Dev.doread Sample.good f1 32 32) = (4, list_ascii_of_string "233" ++ [Dev.LF]) /\
   fst (Dev.doread Sample.good (snd (Dev.doread Sample.good f1 32 32)) 32 32) = (0, [])).
Proof. vm_compute. repeat split. Qed.

(** The same for every reading: when the caller's buffer is large enough,
    the read at offset 0 hands out the formatted string and one NUL. *)
Lemma read_whole_general (r : Thread.results) (f : Dev.file) (len writable : Z) :
  Dev.ofs f = 0 -> Thread.valid r <> 0 -> Thread.sane r ->
  11 <= len < 2 ^ 64 -> len <= writable ->
  fst (Dev.doread r f len writable) =
  (Z.of_nat (length (Dev.fmt (Thread.humidity r) (Thread.temperature r))) + 1,
   Dev.fmt (Thread.humidity r) (Thread.temperature r) ++ [Dev.NUL]).
Proof.
  intros Ho Hv Hs Hl Hw. pose proof (fmt_length r Hs) as L.
  rewrite (doread_start r f len writable Ho Hv Hs) by lia. cbn zeta. cbn [fst].
  replace (Z.min (Z.min _ len) writable)
    with (Z.of_nat (length (Dev.fmt (Thread.humidity r) (Thread.temperature r) ++ [Dev.NUL])))
    by (rewrite length_app; cbn [length]; lia).
  rewrite Nat2Z.id, take_app_length. f_equal. rewrite length_app. cbn [length]. lia.
Qed.

(** After a read at offset 0 the buffer holds the string just formatted,
    and the file position is the number of bytes handed out. *)
Lemma doread_start_buffer (r : Thread.results) (f : Dev.file) (len writable : Z) :
  Dev.ofs f = 0 -> Thread.valid r <> 0 -> Thread.sane r ->
  0 <= len < 2 ^ 64 -> 0 <= writable ->
  Z.of_nat (length (Dev.private_data f)) = Dev.MAXS ->
  let f' := snd (Dev.doread r f len writable) in
  Dev.cstring (Dev.private_data f') = Dev.fmt (Thread.humidity r) (Thread.temperature r) /\
  Dev.ofs f' = fst (fst (Dev.doread r f len writable)) /\
  Z.of_nat (length (Dev.private_data f')) = Dev.MAXS.
Proof.
  intros Ho Hv Hs Hl Hw Hm. pose proof (fmt_length r Hs) as L.
  rewrite (doread_start r f len writable Ho Hv Hs Hl Hw). cbn zeta.
  cbn [fst snd Dev.private_data Dev.ofs].
  split; [|split; [reflexivity|]].
  - rewrite <- !app_assoc. apply cstring_string, fmt_no_nul.
  - unfold Dev.MAXS in *. rewrite !length_app, length_drop. cbn [length]. lia.
Qed.

(** C10. A read at a nonzero offset never looks at the counter: it returns
    0 when the offset is at or past the end of the string in the buffer, and
    otherwise the remaining bytes of that string, as many as the caller asked
    for and can take. The result is the same whatever the results are, so
    also when the counter has dropped to 0 since the string was formatted. *)
Theorem read_remainder (r r0 : Thread.results) (f : Dev.file) (len writable : Z) :
  0 < Dev.ofs f < 2 ^ 63 ->
  Z.of_nat (length (Dev.private_data f)) = Dev.MAXS ->
  0 <= len < 2 ^ 64 -> 0 <= writable ->
  Dev.doread r f len writable = Dev.doread r0 f len writable /\
  Dev.doread r f len writable =
  let rem := Dev.strlen (Dev.private_data f) - Dev.ofs f in
  if rem <=? 0 then (0, [], f)
  else
    let n := Z.min (Z.min rem len) writable in
    (n, take (Z.to_nat n) (drop (Z.to_nat (Dev.ofs f)) (Dev.cstring (Dev.private_data f))),
     Dev.mkf (Dev.private_data f) (Dev.ofs f + n)).
Proof.
  intros Ho Hm Hl Hw. split.
  - now rewrite (doread_remainder r), (doread_remainder r0).
  - now apply doread_remainder.
Qed.

Lemma read_remainder_witness :
  let f1 := snd (Dev.doread Sample.good Sample.fresh 4 4) in
  Dev.doread Sample.stale f1 32 32 = Dev.doread Sample.good f1 32 32 /\
  Dev.doread Sample.stale f1 32 32 =
  (4, list_ascii_of_string "233" ++ [Dev.LF], Dev.mkf (Dev.private_data f1) 8).
Proof.
  cbn zeta.
  destruct (read_remainder Sample.stale Sample.good
              (snd (Dev.doread Sample.good Sample.fresh 4 4)) 32 32) as [A B].
  - vm_compute. split; reflexivity.
  - reflexivity.
  - lia.
  - lia.
  - split; [exact A|]. rewrite B. vm_compute. reflexivity.
Defined.

(** The two reads of C10 in general: a first read at offset 0 while the
    counter is not 0, then a read with any results, also with the counter
    at 0, that continues where the first one stopped. *)
Corollary read_in_two_parts (r r1 : Thread.results) (f : Dev.file) (len len1 writable : Z) :
  Dev.ofs f = 0 -> Thread.valid r <> 0 -> Thread.sane r ->
  Z.of_nat (length (Dev.private_data f)) = Dev.MAXS ->
  0 < len < 2 ^ 64 -> 0 <= len1 < 2 ^ 64 -> 0 < writable ->
  let s := Dev.fmt (Thread.humidity r) (Thread.temperature r) in
  let f1 := snd (Dev.doread r f len writable) in
  let rem := Z.of_nat (length s) - Dev.ofs f1 in
  0 < Dev.ofs f1 /\
  Dev.doread r1 f1 len1 writable =
  if rem <=? 0 then (0, [], f1)
  else
    let n := Z.min (Z.min rem len1) writable in
    (n, take (Z.to_nat n) (drop (Z.to_nat (Dev.ofs f1)) s),
     Dev.mkf (Dev.private_data f1) (Dev.ofs f1 + n)).
Proof.
  intros Ho Hv Hs Hm Hl Hl1 Hw. cbn zeta.
  destruct (doread_start_buffer r f len writable Ho Hv Hs ltac:(lia) ltac:(lia) Hm)
    as (Hc & Hofs & Hm').
  pose proof (fmt_length r Hs) as L.
  assert (Hpos : 0 < Dev.ofs (snd (Dev.doread r f len writable)) <= 11).
  { rewrite Hofs, (doread_start r f len writable Ho Hv Hs) by lia. cbn [fst]. lia. }
  split; [lia|].
  rewrite (doread_remainder r1) by (try assumption; lia). cbn zeta.
  rewrite Hc.
  replace (Dev.strlen (Dev.private_data (snd (Dev.doread r f len writable))))
    with (Z.of_nat (length (Dev.fmt (Thread.humidity r) (Thread.temperature r)))).
  - reflexivity.
  - rewrite (doread_start r f len writable Ho Hv Hs) by lia. cbn [snd Dev.private_data].
    rewrite <- !app_assoc. symmetry. apply strlen_string, fmt_no_nul.
Qed.

(** * Further properties of the driver *)

(** ** Module load and unload *)

Ltac doinit_cases k :=
  unfold Life.doinit, Life.rmmisc, Life.rmgpio, Life.thread_failed;
  destruct (Z.ltb_spec (Life.gpio_request k) 0);
  [| destruct (Z.eqb_spec (Life.misc_register k) 0);
     [ destruct (Z.leb_spec (Life.gpio_to_irq k) 0);
       [| destruct (Z.ltb_spec (Life.request_irq k) 0);
          [| destruct (Z.eqb_spec (Life.kthread_run k) 0)]] |]];
  cbn [negb fst snd app].

Ltac decide_tests :=
  repeat match goal with
         | |- context [?a <=? ?b] => destruct (Z.leb_spec a b); try lia
         | |- context [?a <? ?b] => destruct (Z.ltb_spec a b); try lia
         | |- context [?a =? ?b] => destruct (Z.eqb_spec a b); try lia
         end.


(** When [doinit] fails it gives back what it had obtained, last obtained
    first, with one exception: when it is the thread that could not be
    started, the device is deregistered and the pin freed, but the interrupt
    stays requested. *)
Theorem doinit_failure (k : Life.kernel) :
  fst (Life.doinit k) <> 0 ->
  let log := snd (Life.doinit k) in
  (Life.thread_failed k = false ->
   Life.held log = [] /\ Life.released log = rev (Life.acquired log)) /\
  (Life.thread_failed k = true ->
   Life.held log = [Life.RIrq] /\
   Life.acquired log = [Life.RGpio; Life.RMisc; Life.RIrq] /\
   Life.released log = [Life.RMisc; Life.RGpio]).
Proof.
  doinit_cases k; intros Hf; cbn zeta; try (exfalso; apply Hf; reflexivity);
    decide_tests; cbn [andb]; split; intros E; try discriminate E;
    repeat split.
Qed.

Lemma doinit_failure_witness :
  let no_irq := Life.mkk 0 0 0 0 1 in
  let no_thread := Life.mkk 0 0 17 0 0 in
  (fst (Life.doinit no_irq) = - Dev.EINVAL /\
   Life.held (snd (Life.doinit no_irq)) = [] /\
   Life.released (snd (Life.doinit no_irq)) = [Life.RMisc; Life.RGpio]) /\
  (fst (Life.doinit no_thread) = - Dev.EINVAL /\
   Life.held (snd (Life.doinit no_thread)) = [Life.RIrq]).
Proof.
  cbn zeta. split.
  - split; [reflexivity|].
    assert (F : fst (Life.doinit (Life.mkk 0 0 0 0 1)) <> 0) by (vm_compute; discriminate).
    destruct (proj1 (doinit_failure (Life.mkk 0 0 0 0 1) F) eq_refl) as [A B].
    split; [exact A | exact B].
  - split; [reflexivity|].
    assert (F : fst (Life.doinit (Life.mkk 0 0 17 0 0)) <> 0) by (vm_compute; discriminate).
    exact (proj1 (proj2 (doinit_failure (Life.mkk 0 0 17 0 0) F) eq_refl)).
Defined.



(** ** The handler on arbitrary edges *)

Lemma doirq_state_range (s : Isr.isr) (ev : Isr.event) :
  0 <= Isr.state s <= 3 -> 0 <= Isr.state (Isr.doirq s ev) <= 3.
Proof.
  intros H. destruct ev as [lvl now]. unfold Isr.doirq.
  repeat (case_match; try assumption); cbn; lia.
Qed.

(** Whatever edges arrive, in whatever order and at whatever times, the
    handler stays within its four states and keeps [data] an array of five
    bytes; whenever it is in state 3, where a falling edge writes
    [data[bit / 8]], the index is within the array. *)
Theorem handler_in_bounds (s : Isr.isr) (evs : list Isr.event) :
  Isr.wf s ->
  0 <= Isr.state s <= 3 ->
  (Isr.state s = 3 -> 0 <= Isr.bit s < 40) ->
  let s' := Isr.run s evs in
  Isr.wf s' /\ 0 <= Isr.state s' <= 3 /\
  (Isr.state s' = 3 ->
   0 <= Isr.bit s' < 40 /\ (Z.to_nat (Isr.bit s' / 8) < length (Isr.data s'))%nat).
Proof.
  intros Hwf Hst Hb. cbn zeta.
  assert (W : Isr.wf (Isr.run s evs)) by now apply run_wf.
  split; [exact W|]. split.
  - clear Hwf Hb W. revert s Hst. induction evs as [|ev evs IH]; intros s Hst; [exact Hst|].
    apply IH. now apply doirq_state_range.
  - intros H3. pose proof (run_bit_bound evs s Hb H3) as B. split; [exact B|].
    destruct W as [L _]. rewrite L.
    assert (0 <= Isr.bit (Isr.run s evs) / 8 < 5); [|lia].
    split; [apply Z.div_pos; lia | apply Z.div_lt_upper_bound; lia].
Qed.

Lemma handler_in_bounds_witness :
  let s' := Isr.run (Isr.set_state 1 Sample.isr0)
              [(true, 5); (true, 3); (false, 9); (false, 2); (false, 2); (true, 0)] in
  Isr.wf s' /\ 0 <= Isr.state s' <= 3.
Proof.
  cbn zeta.
  destruct (handler_in_bounds (Isr.set_state 1 Sample.isr0)
              [(true, 5); (true, 3); (false, 9); (false, 2); (false, 2); (true, 0)]
              sample_boot_wf) as (A & B & _).
  - cbn. lia.
  - cbn. discriminate.
  - split; [exact A | exact B].
Defined.

(** Once the fortieth bit is in, further edges change nothing: a response
    followed by any edges leaves the handler as the response alone does. *)
Theorem edges_after_frame_ignored (s : Isr.isr) (t_ack t0 : Z)
    (ps : list Wire.pulse) (extra : list Isr.event) :
  Isr.wf s -> Isr.state s = 1 -> length ps = 40%nat -> Wire.timed t0 ps ->
  Isr.run s (Wire.response t_ack t0 ps ++ extra) = Isr.run s (Wire.response t_ack t0 ps) /\
  Isr.data (Isr.run s (Wire.response t_ack t0 ps ++ extra)) =
    Wire.frame_of_bits (Wire.sent_bits ps).
Proof.
  intros Hwf Hst Hl Ht.
  destruct (run_response s t_ack t0 ps Hwf Hst Hl Ht) as (S0 & _ & D & _).
  rewrite run_app, run_idle by exact S0. split; [reflexivity | exact D].
Qed.

Lemma sample_timed : Wire.timed 160000 (map Wire.pulse_of_bit Sample.bits).
Proof. apply timed_documented; [lia | cbn; lia]. Defined.

Lemma edges_after_frame_ignored_witness :
  Isr.data (Isr.run (Isr.set_state 1 Sample.isr0)
              (Sample.evs ++ [(true, 4000000); (false, 4100000); (false, 4200000)]))
  = Sample.frame.
Proof.
  exact (proj2 (edges_after_frame_ignored (Isr.set_state 1 Sample.isr0) 80000 160000
                  (map Wire.pulse_of_bit Sample.bits)
                  [(true, 4000000); (false, 4100000); (false, 4200000)]
                  sample_boot_wf eq_refl eq_refl sample_timed)).
Defined.

(** The handler after the acknowledge and fewer than forty pulses: still in
    state 3, with as many bits counted as pulses were seen. *)
Lemma run_incomplete (s : Isr.isr) (t_ack t0 : Z) (ps : list Wire.pulse) :
  Isr.state s = 1 -> (length ps < 40)%nat -> Wire.timed t0 ps ->
  let s' := Isr.run s (Wire.response t_ack t0 ps) in
  Isr.state s' = 3 /\ Isr.bit s' = Z.of_nat (length ps).
Proof.
  intros Hst Hl (Ht0 & Hps & Hend).
  unfold Wire.response. cbn [Isr.run fold_left].
  rewrite doirq_armed by exact Hst.
  rewrite doirq_reference by reflexivity.
  set (s2 := Isr.mk _ _ _ _ _).
  destruct (run_edges ps s2 t0 (match ps with [] => 0 | p :: _ => fst p end))
    as (_ & Hb & Hs); try assumption; try reflexivity; try (subst s2; cbn; lia).
  - intros _. split; [reflexivity|]. intros p Hp. destruct ps; [discriminate Hp|].
    now injection Hp as ->.
  - fold (Isr.run s2 (Wire.edges t0 ps)) in *. cbn zeta. rewrite Hs, Hb.
    subst s2. cbn [Isr.bit]. split; [|lia].
    destruct (Z.eqb_spec (0 + Z.of_nat (length ps)) 40); [lia | reflexivity].
Qed.

(** A response that stops before the fortieth bit is a failed poll: the
    thread finds the handler in state 3, rejects the frame whatever [data]
    holds, keeps the reading and counts the counter down. *)
Theorem incomplete_response_rejected (w : Thread.window) (m : Thread.machine)
    (t_ack t0 : Z) (ps : list Wire.pulse) :
  Thread.armed w = Wire.response t_ack t0 ps ->
  (length ps < 40)%nat -> Wire.timed t0 ps ->
  let r := Thread.res m in
  let r' := Thread.res (Thread.poll w m) in
  Thread.final_state w m = 3 /\ Thread.accepted w m = false /\
  Thread.humidity r' = Thread.humidity r /\
  Thread.temperature r' = Thread.temperature r /\
  Thread.valid r' = (if Thread.valid r =? 0 then 0 else Thread.valid r - 1).
Proof.
  intros Ha Hl Ht.
  assert (F : Thread.final_state w m = 3).
  { unfold Thread.final_state, Thread.acquire. cbn [fst]. rewrite Ha.
    now apply run_incomplete. }
  assert (R : Thread.accepted w m = false).
  { rewrite accepted_eq, F. reflexivity. }
  cbn zeta. rewrite (poll_rejected w m R). cbn. auto.
Qed.

Lemma incomplete_response_rejected_witness :
  let w := Thread.mkw [] (Wire.response 80000 160000
                            (map Wire.pulse_of_bit (take 39 Sample.bits))) [] in
  let m := Thread.poll Sample.win Sample.boot in
  Thread.final_state w m = 3 /\ Thread.accepted w m = false /\
  Thread.res (Thread.poll w m) = Thread.mkres 4 233 652.
Proof.
  cbn zeta.
  assert (T : Wire.timed 160000 (map Wire.pulse_of_bit (take 39 Sample.bits)))
    by (apply timed_documented; [lia | cbn; lia]).
  destruct (incomplete_response_rejected
              (Thread.mkw [] (Wire.response 80000 160000
                                (map Wire.pulse_of_bit (take 39 Sample.bits))) [])
              (Thread.poll Sample.win Sample.boot) 80000 160000
              (map Wire.pulse_of_bit (take 39 Sample.bits)) eq_refl) as (A & B & _).
  - cbn. lia.
  - exact T.
  - split; [exact A|]. split; [exact B|]. vm_compute. reflexivity.
Defined.

(** ** Time stamps that wrap around *)

Lemma u64_sub_shift (a b c : Z) : u64 (u64 (a + c) - u64 (b + c)) = u64 (a - b).
Proof.
  unfold u64. rewrite <- Zminus_mod. f_equal. lia.
Qed.

Lemma doirq_shift (c : Z) (s : Isr.isr) (ev : Isr.event) :
  Isr.doirq (Clock.shift_isr c s) (Clock.shift c ev) = Clock.shift_isr c (Isr.doirq s ev).
Proof.
  destruct ev as [lvl now]. unfold Isr.doirq, Clock.shift, Clock.shift_isr.
  cbn [fst snd Isr.state Isr.data Isr.edge Isr.bit Isr.nominal].
  rewrite !u64_sub_shift.
  repeat case_match; reflexivity.
Qed.

Lemma handler_time_shift_aux (c : Z) (s : Isr.isr) (evs : list Isr.event) :
  Isr.run (Clock.shift_isr c s) (map (Clock.shift c) evs) =
  Clock.shift_isr c (Isr.run s evs).
Proof.
  revert s. induction evs as [|ev evs IH]; intros s; [reflexivity|].
  cbn [map Isr.run fold_left]. rewrite doirq_shift. apply IH.
Qed.

(** The handler only uses differences of time stamps, taken modulo 2^64:
    when every time stamp, and the edge the handler remembers, is moved by
    the same amount on the 64-bit clock, the handler goes through the same
    states and builds the same [data]. *)
Theorem handler_time_shift (c : Z) (s : Isr.isr) (evs : list Isr.event) :
  Isr.run (Clock.shift_isr c s) (map (Clock.shift c) evs) =
  Clock.shift_isr c (Isr.run s evs).
Proof.
  revert s. induction evs as [|ev evs IH]; intros s; [reflexivity|].
  cbn [map Isr.run fold_left].
  rewrite doirq_shift.
  apply IH.
Qed.

(** An armed handler does not use the edge it remembers from before. *)
Lemma run_armed_forgets_edge (s : Isr.isr) (e : Z) (evs : list Isr.event) :
  Isr.state s = 1 ->
  let s0 := Isr.mk (Isr.data s) (Isr.state s) e (Isr.bit s) (Isr.nominal s) in
  Isr.data (Isr.run s0 evs) = Isr.data (Isr.run s evs) /\
  Isr.state (Isr.run s0 evs) = Isr.state (Isr.run s evs).
Proof.
  intros Hst. cbn zeta.
  induction evs as [|[lvl now] evs IH].
  - split; reflexivity.
  - cbn [Isr.run fold_left].
    destruct lvl.
    + (* the acknowledge goes high: state 2 *)
      rewrite (doirq_armed s) by exact Hst.
      rewrite doirq_armed by exact Hst.
      destruct evs as [|[lvl2 now2] evs']; [split; reflexivity|].
      cbn [fold_left].
      rewrite (doirq_reference (Isr.set_state 2 s)) by reflexivity.
      rewrite doirq_reference by reflexivity. split; reflexivity.
    + (* pin still low: the edge is ignored *)
      assert (E1 : Isr.doirq s (false, now) = s)
        by (unfold Isr.doirq; now rewrite Hst).
      assert (E2 : forall x, Isr.state x = 1 -> Isr.doirq x (false, now) = x)
        by (intros x Hx; unfold Isr.doirq; now rewrite Hx).
      rewrite E1, E2 by exact Hst. exact IH.
Qed.

(** A response is decoded all the same when the 64-bit clock wraps around
    in the middle of it: with the time stamps of the response taken on a
    clock that is [c] nanoseconds ahead, for any [c], the frame is the one
    that was sent. *)
Theorem decode_across_clock_wrap (c : Z) (s : Isr.isr) (t_ack t0 : Z) (ps : list Wire.pulse) :
  Isr.wf s -> Isr.state s = 1 -> length ps = 40%nat -> Wire.timed t0 ps ->
  let s' := Isr.run s (map (Clock.shift c) (Wire.response t_ack t0 ps)) in
  Isr.state s' = 0 /\ Isr.data s' = Wire.frame_of_bits (Wire.sent_bits ps).
Proof.
  intros Hwf Hst Hl Ht. cbn zeta.
  set (evs := map (Clock.shift c) (Wire.response t_ack t0 ps)).
  destruct (run_armed_forgets_edge s (u64 (Isr.edge s + c)) evs Hst) as [D S].
  cbn zeta in D, S. rewrite <- D, <- S.
  change (Isr.mk (Isr.data s) (Isr.state s) (u64 (Isr.edge s + c)) (Isr.bit s) (Isr.nominal s))
    with (Clock.shift_isr c s).
  subst evs. rewrite handler_time_shift_aux.
  destruct (run_response s t_ack t0 ps Hwf Hst Hl Ht) as (S0 & _ & D0 & _).
  split; [exact S0 | exact D0].
Qed.

Lemma decode_across_clock_wrap_witness :
  let c := 2 ^ 64 - 2026000 in
  let evs := map (Clock.shift c) Sample.evs in
  nth 44 evs (true, 0) = (true, 2 ^ 64 - 10000) /\
  nth 45 evs (true, 0) = (false, 60000) /\
  Isr.data (Isr.run (Isr.set_state 1 Sample.isr0) evs) = Sample.frame.
Proof.
  cbn zeta. split; [reflexivity|]. split; [reflexivity|].
  exact (proj2 (decode_across_clock_wrap (2 ^ 64 - 2026000) (Isr.set_state 1 Sample.isr0)
                  80000 160000 (map Wire.pulse_of_bit Sample.bits)
                  sample_boot_wf eq_refl eq_refl sample_timed)).
Defined.

(** ** What a poll depends on *)

Lemma acquire_parts (w : Thread.window) (i : Isr.isr) :
  let a := Isr.run (Isr.set_state 1 (Isr.set_state 0 i)) (Thread.armed w) in
  fst (Thread.acquire w i) = Isr.state a /\
  (Isr.state a = 0 -> snd (Thread.acquire w i) = a).
Proof.
  cbn zeta. unfold Thread.acquire.
  rewrite (run_idle (Isr.set_state 0 i) (Thread.pre w)) by reflexivity.
  cbn [fst snd]. split; [reflexivity|]. intros H.
  rewrite (run_idle _ (Thread.late w)) by exact H.
  destruct (Isr.run _ _) as [d st e b n]. cbn in H. subst st. reflexivity.
Qed.

(** The outcome of a poll depends only on the edges that arrive while the
    handler is armed: the edges during the trigger, and those between the
    read of the final state and the disarm, change neither the verdict nor
    the results; and every poll leaves the handler disarmed. *)
Theorem poll_uses_armed_edges_only (w : Thread.window) (m : Thread.machine) :
  let w' := Thread.mkw [] (Thread.armed w) [] in
  Thread.accepted w m = Thread.accepted w' m /\
  Thread.res (Thread.poll w m) = Thread.res (Thread.poll w' m) /\
  Isr.state (Thread.irq (Thread.poll w m)) = 0.
Proof.
  cbn zeta.
  set (w' := Thread.mkw [] (Thread.armed w) []).
  destruct (acquire_parts w (Thread.irq m)) as [F D].
  destruct (acquire_parts w' (Thread.irq m)) as [F' D'].
  cbn zeta in *. change (Thread.armed w') with (Thread.armed w) in *.
  set (a := Isr.run (Isr.set_state 1 (Isr.set_state 0 (Thread.irq m))) (Thread.armed w)) in *.
  assert (A : Thread.accepted w m = Thread.accepted w' m).
  { rewrite !accepted_eq. unfold Thread.final_state, Thread.frame. rewrite F, F'.
    destruct (Z.eq_dec (Isr.state a) 0) as [E|E].
    - now rewrite (D E), (D' E).
    - unfold Thread.frame_ok. destruct (Z.eqb_spec (Isr.state a) 0); [contradiction | reflexivity]. }
  split; [exact A|]. split.
  - destruct (Thread.accepted w' m) eqn:Acc.
    + rewrite (poll_accepted w m A), (poll_accepted w' m Acc). cbn zeta.
      rewrite accepted_eq in Acc. apply frame_ok_iff in Acc as [E _].
      unfold Thread.final_state in E. rewrite F' in E.
      unfold Thread.frame. now rewrite (D E), (D' E).
    + now rewrite (poll_rejected w m A), (poll_rejected w' m Acc).
  - unfold Thread.poll, Thread.acquire. now destruct (Thread.frame_ok _ _).
Qed.

(** ** From the wire to the results *)

Lemma byte_of_bits_of_byte (x : Z) :
  0 <= x < 256 -> Wire.byte_of_bits (Wire.bits_of_byte x) = x.
Proof.
  intros Hx.
  assert (A : forallb (fun n => Wire.byte_of_bits (Wire.bits_of_byte (Z.of_nat n)) =? Z.of_nat n)
                (seq 0 256) = true) by (vm_compute; reflexivity).
  rewrite forallb_forall in A. specialize (A (Z.to_nat x)).
  rewrite Z2Nat.id in A by lia. apply Z.eqb_eq, A, in_seq. lia.
Qed.

Lemma length_bits_of_byte (x : Z) : length (Wire.bits_of_byte x) = 8%nat.
Proof. reflexivity. Qed.

(** The five bytes of a frame, sent as bits and packed again, are the five
    bytes. *)
Lemma frame_of_bits_of_frame (d : list Z) :
  length d = 5%nat -> Forall (fun v => 0 <= v < 256) d ->
  Wire.frame_of_bits (Wire.bits_of_frame d) = d /\
  length (Wire.bits_of_frame d) = 40%nat.
Proof.
  intros Hl Hb.
  destruct d as [|d0 [|d1 [|d2 [|d3 [|d4 [|]]]]]]; try discriminate Hl.
  repeat match goal with H : Forall _ (_ :: _) |- _ => apply Forall_cons in H as [? H] end.
  split; [|reflexivity].
  unfold Wire.bits_of_frame. cbn [flat_map].
  rewrite <- (byte_of_bits_of_byte d0) at 2 by assumption.
  rewrite <- (byte_of_bits_of_byte d1) at 2 by assumption.
  rewrite <- (byte_of_bits_of_byte d2) at 2 by assumption.
  rewrite <- (byte_of_bits_of_byte d3) at 2 by assumption.
  rewrite <- (byte_of_bits_of_byte d4) at 2 by assumption.
  reflexivity.
Qed.

(** Any frame that passes the thread's test, sent with the documented
    timing while the handler is armed, is what the poll publishes: the
    counter is 5, the humidity [d0 * 10 + d1], the temperature
    [d2 * 10 + d3], whatever the driver held before. *)
Theorem sent_frame_published (w : Thread.window) (m : Thread.machine)
    (d : list Z) (t_ack t0 : Z) :
  Isr.wf (Thread.irq m) ->
  length d = 5%nat -> Forall (fun v => 0 <= v < 256) d ->
  Thread.frame_ok 0 d = true ->
  Thread.armed w = Wire.response t_ack t0 (map Wire.pulse_of_bit (Wire.bits_of_frame d)) ->
  0 <= t0 < 2 ^ 63 ->
  Thread.frame w m = d /\
  Thread.res (Thread.poll w m) =
  Thread.mkres 5 (Isr.rd d 2 * 10 + Isr.rd d 3) (Isr.rd d 0 * 10 + Isr.rd d 1).
Proof.
  intros Hwf Hl Hb Hok Ha Ht.
  destruct (frame_of_bits_of_frame d Hl Hb) as [RT L40].
  destruct (acquire_parts w (Thread.irq m)) as [F D]. cbn zeta in F, D.
  rewrite Ha in F, D.
  destruct (decode_documented (Isr.set_state 1 (Isr.set_state 0 (Thread.irq m)))
              t_ack t0 (Wire.bits_of_frame d)) as (S0 & D0 & _);
    try assumption; try reflexivity.
  cbn zeta in S0, D0.
  assert (Fr : Thread.frame w m = d).
  { unfold Thread.frame. rewrite (D S0), D0. exact RT. }
  assert (Acc : Thread.accepted w m = true).
  { rewrite accepted_eq, Fr. unfold Thread.final_state. rewrite F, S0. exact Hok. }
  split; [exact Fr|].
  rewrite (poll_accepted w m Acc). cbn zeta. now rewrite Fr.
Qed.

Lemma sent_frame_published_witness :
  Thread.res (Thread.poll (Thread.mkw [(true, 1)]
                 (Wire.response 80000 160000
                    (map Wire.pulse_of_bit (Wire.bits_of_frame [40; 0; 21; 5; 66])))
                 [(false, 9000000)])
               (Thread.poll Sample.win Sample.boot))
  = Thread.mkres 5 215 400.
Proof.
  refine (proj2 (sent_frame_published
           (Thread.mkw [(true, 1)]
              (Wire.response 80000 160000
                 (map Wire.pulse_of_bit (Wire.bits_of_frame [40; 0; 21; 5; 66])))
              [(false, 9000000)])
           (Thread.poll Sample.win Sample.boot) [40; 0; 21; 5; 66] 80000 160000
           _ eq_refl _ eq_refl eq_refl _)).
  - apply poll_wf, sample_boot_wf.
  - repeat constructor; lia.
  - lia.
Defined.

(** ** A bit flipped on the wire *)

Lemma flip_byte (x j : Z) :
  0 <= x < 256 -> 0 <= j < 8 ->
  let x' := u8 (Z.lxor x (2 ^ j)) in
  0 <= x' < 256 /\ (x' - x) mod 256 <> 0.
Proof.
  intros Hx Hj. cbn zeta.
  assert (A : forallb (fun n => forallb (fun k =>
                 let x' := u8 (Z.lxor (Z.of_nat n) (2 ^ Z.of_nat k)) in
                 (0 <=? x') && (x' <? 256) && negb ((x' - Z.of_nat n) mod 256 =? 0))
                 (seq 0 8)) (seq 0 256) = true) by (vm_compute; reflexivity).
  assert (Ix : In (Z.to_nat x) (seq 0 256)) by (apply in_seq; lia).
  assert (Ij : In (Z.to_nat j) (seq 0 8)) by (apply in_seq; lia).
  pose proof (proj1 (forallb_forall _ _) (proj1 (forallb_forall _ _) A _ Ix) _ Ij) as B.
  cbn beta zeta in B. rewrite !Z2Nat.id in B by lia.
  rewrite !andb_true_iff, negb_true_iff in B.
  destruct B as [[B1 B2] B3].
  apply Z.leb_le in B1. apply Z.ltb_lt in B2. apply Z.eqb_neq in B3. auto.
Qed.

Lemma mod_diff (a b c : Z) : a mod 256 = c -> b mod 256 = c -> (a - b) mod 256 = 0.
Proof. intros Ha Hb. now rewrite Zminus_mod, Ha, Hb, Z.sub_diag. Qed.

(** The checksum catches every single-bit error: an accepted frame with
    any one of its forty bits inverted is rejected. *)
Theorem single_bit_error_rejected (d : list Z) (i j : Z) (final : Z) :
  length d = 5%nat -> Forall (fun v => 0 <= v < 256) d ->
  Thread.frame_ok 0 d = true ->
  0 <= i < 5 -> 0 <= j < 8 ->
  Thread.frame_ok final (Run.flip d i j) = false.
Proof.
  intros Hl Hb Hok Hi Hj.
  apply frame_ok_iff in Hok as (_ & _ & _ & Hsum). rewrite mask_255 in Hsum.
  apply not_true_iff_false. intros Hok'.
  apply frame_ok_iff in Hok' as (_ & _ & _ & Hsum'). rewrite mask_255 in Hsum'.
  destruct (flip_byte (Isr.rd d i) j (rd_range d i Hb) Hj) as [R N]. cbn zeta in R, N.
  unfold Run.flip, Isr.wr in Hsum'.
  set (x' := u8 (Z.lxor (Isr.rd d i) (2 ^ j))) in *. clearbody x'.
  destruct d as [|d0 [|d1 [|d2 [|d3 [|d4 [|]]]]]]; try discriminate Hl.
  unfold Isr.rd in *.
  assert (C : i = 0 \/ i = 1 \/ i = 2 \/ i = 3 \/ i = 4) by lia.
  apply N. clear N R Hb Hl Hi.
  destruct C as [-> | [-> | [-> | [-> | ->]]]];
    simpl in Hsum, Hsum' |- *.
  - replace (x' - d0) with ((x' + d1 + d2 + d3) - (d0 + d1 + d2 + d3)) by lia.
    now apply (mod_diff _ _ d4).
  - replace (x' - d1) with ((d0 + x' + d2 + d3) - (d0 + d1 + d2 + d3)) by lia.
    now apply (mod_diff _ _ d4).
  - replace (x' - d2) with ((d0 + d1 + x' + d3) - (d0 + d1 + d2 + d3)) by lia.
    now apply (mod_diff _ _ d4).
  - replace (x' - d3) with ((d0 + d1 + d2 + x') - (d0 + d1 + d2 + d3)) by lia.
    now apply (mod_diff _ _ d4).
  - rewrite <- Hsum', Hsum, Z.sub_diag. reflexivity.
Qed.

Lemma single_bit_error_rejected_witness :
  Thread.frame_ok 0 Sample.frame = true /\
  Run.flip Sample.frame 2 4 = [65; 2; 7; 3; 93] /\
  Thread.frame_ok 0 (Run.flip Sample.frame 2 4) = false.
Proof.
  split; [reflexivity|]. split; [reflexivity|].
  apply (single_bit_error_rejected Sample.frame 2 4 0); try reflexivity; try lia.
  repeat constructor; lia.
Defined.

(** ** The loop of the thread *)

Lemma turns_app (st : Z * Thread.machine) (a b : list Thread.window) :
  Run.turns st (a ++ b) = Run.turns (Run.turns st a) b.
Proof. unfold Run.turns. apply fold_left_app. Qed.

(** Sleeping turns: with [await] above the number of turns, nothing but the
    countdown changes. *)
Lemma turns_spin (ws : list Thread.window) (await : Z) (m : Thread.machine) :
  Z.of_nat (length ws) < await ->
  Run.turns (await, m) ws = (await - Z.of_nat (length ws), m).
Proof.
  revert await. induction ws as [|w ws IH]; intros await H.
  - cbn. f_equal. lia.
  - cbn [length] in H. unfold Run.turns in *. cbn [fold_left].
    rewrite loop_body_spin by lia. rewrite IH by lia. f_equal. cbn [length]. lia.
Qed.

Lemma turns_period (ws : list Thread.window) (w : Thread.window) (m : Thread.machine) :
  length ws = 19%nat ->
  Run.turns (20, m) (ws ++ [w]) = (20, Thread.poll w m).
Proof.
  intros H. rewrite turns_app, turns_spin by lia. rewrite H.
  unfold Run.turns. cbn [fold_left]. now rewrite loop_body_poll by lia.
Qed.

Lemma turns_rounds (rounds : list (list Thread.window * Thread.window)) :
  Forall (fun r => length (fst r) = 19%nat) rounds ->
  forall m,
  Run.turns (20, m) (flat_map (fun r => fst r ++ [snd r]) rounds) =
  (20, Thread.polls m (map snd rounds)).
Proof.
  induction 1 as [|[ws w] rounds Hr _ IH]; intros m; [reflexivity|].
  cbn [flat_map map]. rewrite turns_app.
  cbn [fst snd] in *. rewrite turns_period by exact Hr.
  rewrite polls_cons. apply IH.
Qed.

(** The thread polls on its first turn and then on every twentieth turn:
    after the first poll, any number of rounds of nineteen sleeping turns
    and one polling turn amounts to the polls alone, one per round. *)
Theorem one_poll_per_twenty_turns (m : Thread.machine) (w0 : Thread.window)
    (rounds : list (list Thread.window * Thread.window)) :
  Forall (fun r => length (fst r) = 19%nat) rounds ->
  Run.turns (0, m) (w0 :: flat_map (fun r => fst r ++ [snd r]) rounds) =
  (20, Thread.polls (Thread.poll w0 m) (map snd rounds)).
Proof.
  intros H.
  change (w0 :: flat_map (fun r => fst r ++ [snd r]) rounds)
    with ([w0] ++ flat_map (fun r => fst r ++ [snd r]) rounds).
  rewrite turns_app.
  replace (Run.turns (0, m) [w0]) with (20, Thread.poll w0 m)
    by (unfold Run.turns; cbn [fold_left]; now rewrite loop_body_poll by lia).
  now apply turns_rounds.
Qed.

Lemma one_poll_per_twenty_turns_witness :
  Run.turns (0, Sample.boot)
    (Sample.win :: repeat Thread.silence 19 ++ [Thread.silence]) =
  (20, Thread.polls (Thread.poll Sample.win Sample.boot) [Thread.silence]).
Proof.
  apply (one_poll_per_twenty_turns Sample.boot Sample.win
           [(repeat Thread.silence 19, Thread.silence)]).
  repeat constructor.
Defined.

Lemma poll_disarmed (w : Thread.window) (m : Thread.machine) :
  Isr.state (Thread.irq (Thread.poll w m)) = 0.
Proof. unfold Thread.poll, Thread.acquire. now destruct (Thread.frame_ok _ _). Qed.

(** From module load on, whatever edges arrive and however long the thread
    runs: the counter stays within 0..5, the two readings within 0..2559,
    [data] stays five bytes, the handler is disarmed between polls, and the
    countdown to the next poll stays within 0..20. *)
Theorem driver_invariants (ws : list Thread.window) :
  let st := Run.turns (0, Sample.boot) ws in
  Thread.sane (Thread.res (snd st)) /\ Isr.wf (Thread.irq (snd st)) /\
  Isr.state (Thread.irq (snd st)) = 0 /\ 0 <= fst st <= 20.
Proof.
  cbn zeta.
  assert (G : forall st : Z * Thread.machine,
    (Thread.sane (Thread.res (snd st)) /\ Isr.wf (Thread.irq (snd st)) /\
     Isr.state (Thread.irq (snd st)) = 0 /\ 0 <= fst st <= 20) ->
    let st' := Run.turns st ws in
    Thread.sane (Thread.res (snd st')) /\ Isr.wf (Thread.irq (snd st')) /\
    Isr.state (Thread.irq (snd st')) = 0 /\ 0 <= fst st' <= 20).
  { induction ws as [|w ws IH]; intros st H; [exact H|].
    unfold Run.turns. cbn [fold_left]. apply IH. clear IH.
    destruct st as [await m]. destruct H as (Hs & Hw & H0 & Ha). cbn [fst snd] in *.
    unfold Thread.loop_body. destruct (Z.gtb_spec (await - 1) 0); cbn [fst snd].
    - split; [exact Hs|]. split; [exact Hw|]. split; [exact H0 | lia].
    - split; [now apply poll_sane|]. split; [now apply poll_wf|].
      split; [apply poll_disarmed | change (2000 / 100) with 20; lia]. }
  apply G. cbn [fst snd]. split; [unfold Thread.sane; cbn; lia|].
  split; [exact sample_boot_wf|]. split; [reflexivity | lia].
Qed.

(** ** Reads and the buffer of an open file *)

Lemma length_cstring (buf : list ascii) :
  Z.of_nat (length (Dev.cstring buf)) = Dev.strlen buf.
Proof.
  unfold Dev.cstring. pose proof (strlen_bounds buf). rewrite length_take. lia.
Qed.

(** A read is either refused with [-EINVAL], leaving the file as it was, or
    it hands out exactly as many bytes as it returns: never more than the
    caller asked for or can take, all of them taken from the buffer at the
    old file position, which then advances by that number. The buffer stays
    [MAXS] bytes long with a NUL inside it. *)
Theorem doread_safe (r : Thread.results) (f : Dev.file) (len writable : Z) :
  Thread.sane r ->
  Z.of_nat (length (Dev.private_data f)) = Dev.MAXS ->
  0 <= Dev.ofs f < 2 ^ 63 -> 0 <= len < 2 ^ 64 -> 0 <= writable ->
  let ret := fst (fst (Dev.doread r f len writable)) in
  let out := snd (fst (Dev.doread r f len writable)) in
  let f' := snd (Dev.doread r f len writable) in
  ((ret = - Dev.EINVAL /\ out = [] /\ f' = f /\ Thread.valid r = 0 /\ Dev.ofs f = 0) \/
   (0 <= ret /\ Z.of_nat (length out) = ret /\ ret <= len /\ ret <= writable /\
    Dev.ofs f' = Dev.ofs f + ret /\
    out = take (Z.to_nat ret) (drop (Z.to_nat (Dev.ofs f)) (Dev.private_data f')))) /\
  Z.of_nat (length (Dev.private_data f')) = Dev.MAXS /\
  (Dev.strlen (Dev.private_data f) < Dev.MAXS ->
   Dev.strlen (Dev.private_data f') < Dev.MAXS).
Proof.
  intros Hs Hm Ho Hl Hw. cbn zeta. unfold Dev.MAXS in *.
  destruct (Z.eq_dec (Dev.ofs f) 0) as [E0|N0].
  - destruct (Z.eq_dec (Thread.valid r) 0) as [V0|V].
    + rewrite (doread_invalid r f len writable E0 V0). cbn [fst snd].
      split; [left; auto|]. split; [exact Hm | auto].
    + pose proof (fmt_length r Hs) as L.
      destruct (doread_start_buffer r f len writable E0 V Hs Hl Hw Hm) as (C & _ & M).
      cbn zeta in C, M.
      rewrite (doread_start r f len writable E0 V Hs Hl Hw) in *. cbn zeta in *.
      cbn [fst snd Dev.private_data Dev.ofs] in *.
      set (s := Dev.fmt (Thread.humidity r) (Thread.temperature r)) in *.
      set (pd := (s ++ [Dev.NUL]) ++ drop (length (s ++ [Dev.NUL])) (Dev.private_data f)) in *.
      split; [right|].
      * rewrite E0. cbn [Z.to_nat drop Z.add]. repeat split; try lia.
        rewrite length_take. unfold Dev.MAXS in M. lia.
      * split; [exact M|]. intros _.
        unfold pd. rewrite <- app_assoc. cbn [app].
        rewrite strlen_string by apply fmt_no_nul. fold s. lia.
  - pose proof (strlen_bounds (Dev.private_data f)) as B.
    rewrite (doread_remainder r f len writable) by (unfold Dev.MAXS; lia). cbn zeta.
    destruct (Z.leb_spec (Dev.strlen (Dev.private_data f) - Dev.ofs f) 0) as [R|R];
      cbn [fst snd Dev.private_data Dev.ofs].
    + split; [right | split; [exact Hm | auto]].
      cbn [length Z.of_nat Z.to_nat take]. repeat split; lia.
    + split; [right|split; [exact Hm | auto]].
      set (n := Z.min (Z.min (Dev.strlen (Dev.private_data f) - Dev.ofs f) len) writable).
      assert (Hn : 0 <= n <= Dev.strlen (Dev.private_data f) - Dev.ofs f) by lia.
      repeat split; try lia.
      * rewrite length_take, length_drop.
        pose proof (length_cstring (Dev.private_data f)). lia.
      * unfold Dev.cstring. rewrite !take_drop_commute, take_take. f_equal. f_equal. lia.
Qed.

Lemma doread_safe_witness :
  let res := Dev.doread Sample.good Sample.fresh 5 3 in
  fst (fst res) = 3 /\ length (snd (fst res)) = 3%nat /\ Dev.ofs (snd res) = 3.
Proof.
  cbn zeta.
  destruct (doread_safe Sample.good Sample.fresh 5 3) as ([(E & _)|(_ & _ & _ & _ & _)] & _);
    try (unfold Thread.sane; cbn; lia); try (cbn; lia); try reflexivity.
  - vm_compute in E. discriminate E.
  - repeat split.
Defined.

(** ** Sequences of reads *)

Lemma total_cons (r : Thread.results) (len : Z) (calls : list (Thread.results * Z)) :
  Run.total ((r, len) :: calls) = len + Run.total calls.
Proof. reflexivity. Qed.

Lemma total_nonneg (calls : list (Thread.results * Z)) :
  Forall (fun c => 0 <= snd c) calls -> 0 <= Run.total calls.
Proof.
  induction 1 as [|[r len] calls H _ IH]; [reflexivity|].
  rewrite total_cons. cbn [snd] in H. lia.
Qed.

(** Reads that continue at a nonzero offset, taken together, hand out the
    string in the buffer from that offset on, as far as the lengths asked
    for add up to. *)
Lemma reads_continue (calls : list (Thread.results * Z)) :
  forall (f : Dev.file) (writable : Z),
  0 < Dev.ofs f < 2 ^ 63 ->
  Z.of_nat (length (Dev.private_data f)) = Dev.MAXS ->
  Forall (fun c => 0 <= snd c < 2 ^ 64 /\ snd c <= writable) calls ->
  let s := Dev.cstring (Dev.private_data f) in
  fst (Run.reads f writable calls) =
    take (Z.to_nat (Run.total calls)) (drop (Z.to_nat (Dev.ofs f)) s) /\
  Dev.private_data (snd (Run.reads f writable calls)) = Dev.private_data f.
Proof.
  induction calls as [|[r len] calls IH]; intros f writable Ho Hm Hc; cbn zeta.
  - cbn. split; reflexivity.
  - apply Forall_cons in Hc as [[Hl Hw] Hc]. cbn [snd] in Hl, Hw.
    assert (Tn : 0 <= Run.total calls).
    { apply total_nonneg. eapply Forall_impl; [exact Hc|]. cbn beta. intros ? ?; lia. }
    pose proof (strlen_bounds (Dev.private_data f)) as B.
    pose proof (length_cstring (Dev.private_data f)) as LC.
    cbn [Run.reads]. rewrite total_cons.
    rewrite (doread_remainder r f len writable) by (try assumption; lia). cbn zeta.
    set (rem := Dev.strlen (Dev.private_data f) - Dev.ofs f) in *.
    unfold Dev.MAXS in Hm.
    destruct (Z.leb_spec rem 0) as [R|R].
    + (* nothing left *)
      destruct (IH f writable Ho Hm Hc) as [I1 I2]. cbn zeta in I1.
      destruct (Run.reads f writable calls) as [outs f2]. cbn [fst snd] in *.
      split; [|exact I2]. rewrite I1.
      rewrite (drop_ge (Dev.cstring _)) by lia. now rewrite !take_nil.
    + replace (Z.min (Z.min rem len) writable) with (Z.min rem len) by lia.
      set (n := Z.min rem len).
      set (f1 := Dev.mkf (Dev.private_data f) (Dev.ofs f + n)).
      destruct (IH f1 writable) as [I1 I2]; try assumption.
      { subst f1. cbn [Dev.ofs]. lia. }
      cbn zeta in I1. subst f1. cbn [Dev.ofs Dev.private_data] in I1, I2.
      destruct (Run.reads _ writable calls) as [outs f2]. cbn [fst snd] in *.
      split; [|exact I2]. rewrite I1.
      replace (Z.to_nat (Dev.ofs f + n)) with (Z.to_nat (Dev.ofs f) + Z.to_nat n)%nat by lia.
      rewrite <- drop_drop.
      set (rest := drop (Z.to_nat (Dev.ofs f)) (Dev.cstring (Dev.private_data f))).
      assert (LR : Z.of_nat (length rest) = rem).
      { subst rest. rewrite length_drop. lia. }
      rewrite take_take_drop.
      destruct (Z_le_gt_dec len rem) as [C|C].
      * f_equal. lia.
      * rewrite !take_ge by lia. reflexivity.
Qed.

(** Reading a device file from its start in several calls gives one
    consistent reading: the first call formats the reading as it is then,
    and the calls that follow hand out the rest of that string, whatever
    has become of the reading or of the counter in between. When the first
    call asks for more than the string, it gets the string and one NUL and
    the calls that follow get nothing. *)
Theorem reads_give_one_reading (r : Thread.results) (len : Z)
    (calls : list (Thread.results * Z)) (f : Dev.file) (writable : Z) :
  Dev.ofs f = 0 -> Thread.valid r <> 0 -> Thread.sane r ->
  Z.of_nat (length (Dev.private_data f)) = Dev.MAXS ->
  0 < len < 2 ^ 64 -> len <= writable ->
  Forall (fun c => 0 <= snd c < 2 ^ 64 /\ snd c <= writable) calls ->
  let s := Dev.fmt (Thread.humidity r) (Thread.temperature r) in
  fst (Run.reads f writable ((r, len) :: calls)) =
  if len <=? Z.of_nat (length s)
  then take (Z.to_nat (len + Run.total calls)) s
  else s ++ [Dev.NUL].
Proof.
  intros Ho Hv Hs Hm Hl Hw Hc. cbn zeta.
  pose proof (fmt_length r Hs) as L.
  assert (Tn : 0 <= Run.total calls).
  { apply total_nonneg. eapply Forall_impl; [exact Hc|]. cbn beta. intros ? ?; lia. }
  destruct (doread_start_buffer r f len writable Ho Hv Hs ltac:(lia) ltac:(lia) Hm)
    as (C & O & M). cbn zeta in C, O, M.
  cbn [Run.reads].
  pose proof (doread_start r f len writable Ho Hv Hs ltac:(lia) ltac:(lia)) as E.
  cbn zeta in E.
  set (s := Dev.fmt (Thread.humidity r) (Thread.temperature r)) in *.
  destruct (Dev.doread r f len writable) as [[ret out] f1]. cbn [fst snd] in *.
  injection E as -> -> ->. cbn [Dev.ofs Dev.private_data] in *.
  set (n := Z.min (Z.min (Z.of_nat (length s) + 1) len) writable) in *.
  set (pd := (s ++ [Dev.NUL]) ++ drop (length (s ++ [Dev.NUL])) (Dev.private_data f)) in *.
  destruct (reads_continue calls (Dev.mkf pd n) writable) as [I1 _];
    try assumption; [cbn [Dev.ofs]; lia|].
  cbn zeta in I1. cbn [Dev.ofs Dev.private_data] in I1. rewrite C in I1.
  destruct (Run.reads (Dev.mkf pd n) writable calls) as [outs f2]. cbn [fst] in *.
  rewrite I1. unfold pd. rewrite <- app_assoc.
  destruct (Z.leb_spec len (Z.of_nat (length s))) as [Le|Gt].
  - replace n with len in * by (unfold n; lia).
    assert (Q : (Z.to_nat len <= length s)%nat) by lia.
    rewrite take_app_le by exact Q. rewrite take_take_drop. f_equal. lia.
  - replace n with (Z.of_nat (length s) + 1) in * by (unfold n; lia).
    rewrite (drop_ge s) by lia. rewrite take_nil, app_nil_r.
    rewrite app_assoc. rewrite take_app_length'; [reflexivity|].
    rewrite length_app. cbn [length]. lia.
Qed.

Lemma reads_give_one_reading_witness :
  fst (Run.reads Sample.fresh 32
         [(Sample.good, 3); (Sample.stale, 2); (Thread.mkres 5 111 222, 32);
          (Sample.good, 32)])
  = list_ascii_of_string "652 233" ++ [Dev.LF].
Proof.
  assert (S : Thread.sane Sample.good) by (unfold Thread.sane; cbn; lia).
  rewrite (reads_give_one_reading Sample.good 3
             [(Sample.stale, 2); (Thread.mkres 5 111 222, 32); (Sample.good, 32)]
             Sample.fresh 32 eq_refl ltac:(discriminate) S eq_refl ltac:(lia) ltac:(lia)).
  - reflexivity.
  - repeat constructor; cbn; lia.
Defined.

(** As long as no poll has been accepted, every read from the start of the
    file is refused, for however long the sensor stays silent or sends
    frames that fail. *)
Theorem no_reading_no_read (m : Thread.machine) (ws : list Thread.window)
    (f : Dev.file) (len writable : Z) :
  Thread.valid (Thread.res m) = 0 ->
  Thread.all_failed m ws = true ->
  Dev.ofs f = 0 ->
  Dev.doread (Thread.res (Thread.polls m ws)) f len writable = (- Dev.EINVAL, [], f).
Proof.
  intros Hv Hall Ho.
  destruct (polls_failed ws m ltac:(lia) Hall) as (V & _).
  apply doread_invalid; [exact Ho|]. rewrite V, Hv. lia.
Qed.

Lemma no_reading_no_read_witness :
  Dev.doread (Thread.res (Thread.polls Sample.boot (repeat Thread.silence 9)))
             Sample.fresh 32 32 = (- Dev.EINVAL, [], Sample.fresh).
Proof.
  exact (no_reading_no_read Sample.boot (repeat Thread.silence 9) Sample.fresh 32 32
           eq_refl eq_refl eq_refl).
Defined.

(** [doopen] fails with [-ENOMEM] when there is no memory. On a block of
    [MAXS] bytes it gives a file at offset 0 that holds the empty string,
    whatever was in the block: a read of it at any nonzero offset returns
    nothing, and the first read from its start gives the reading. *)
Theorem doopen_empty (blk : list ascii) (r : Thread.results) (o len writable : Z) :
  Z.of_nat (length blk) = Dev.MAXS ->
  0 < o < 2 ^ 63 -> 0 <= len < 2 ^ 64 -> 0 <= writable ->
  Dev.doopen None = (- Dev.ENOMEM, None) /\
  exists f,
    Dev.doopen (Some blk) = (0, Some f) /\ Dev.ofs f = 0 /\
    Dev.cstring (Dev.private_data f) = [] /\
    Z.of_nat (length (Dev.private_data f)) = Dev.MAXS /\
    fst (Dev.doread r (Dev.mkf (Dev.private_data f) o) len writable) = (0, []).
Proof.
  intros Hm Ho Hl Hw. split; [reflexivity|].
  destruct blk as [|c blk]; [discriminate Hm|].
  eexists. split; [reflexivity|]. cbn [Dev.ofs Dev.private_data].
  split; [reflexivity|]. split; [reflexivity|]. split; [exact Hm|].
  rewrite doread_remainder; cbn [Dev.ofs Dev.private_data]; try assumption.
  cbn zeta. cbn [insert list_insert Dev.strlen].
  change (Ascii.eqb Dev.NUL Dev.NUL) with true. cbn iota.
  destruct (Z.leb_spec (0 - o) 0); [reflexivity | lia].
Qed.

Lemma doopen_empty_witness :
  exists f, Dev.doopen (Some (repeat "x"%char 32)) = (0, Some f) /\
            fst (Dev.doread Sample.good (Dev.mkf (Dev.private_data f) 7) 32 32) = (0, []).
Proof.
  destruct (doopen_empty (repeat "x"%char 32) Sample.good 7 32 32)
    as (_ & f & A & _ & _ & _ & B); try reflexivity; try lia.
  exists f. split; [exact A | exact B].
Defined.
